(** * The candy-machine command line: upload, batch registration, verification

    A shallow embedding of [js/packages/cli/src/cli.ts].  The cache document
    and the in-memory JavaScript objects are modelled as data, the network and
    the file system as an environment record the actions consult, and every
    action as a function that threads the in-memory cache, the cache file and
    the list of observable events through the statements of the source. *)

From Stdlib Require Import List String Ascii Bool Arith ZArith NArith Lia.
From Stdlib Require Import DecimalString.
Import ListNotations.
Local Open Scope string_scope.
Local Open Scope list_scope.

Set Implicit Arguments.

(** ** JavaScript strings and Node paths *)

Module JS.

(** A value is truthy unless it is [undefined] or the empty string. *)
Definition truthy (v : option string) : bool :=
  match v with
  | Some s => negb (s =? "")
  | None => false
  end.

(** [drop n s] is [s.slice(n)]. *)
Fixpoint drop (n : nat) (s : string) : string :=
  match n, s with
  | O, _ => s
  | S n', String _ s' => drop n' s'
  | S _, EmptyString => EmptyString
  end.

(** [s.replace(pat, rep)] with a string pattern: only the first occurrence
    is replaced.  The replacements of the source hold no [$]. *)
Fixpoint replace (pat rep s : string) : string :=
  if prefix pat s then rep ++ drop (String.length pat) s
  else match s with
       | EmptyString => EmptyString
       | String c s' => String c (replace pat rep s')
       end.

(** [s.includes(t)]: [t] occurs in [s]. *)
Fixpoint includes (t s : string) : bool :=
  if prefix t s then true
  else match s with
       | EmptyString => false
       | String _ s' => includes t s'
       end.

(** [s.split('/').pop()]: what follows the last slash. *)
Fixpoint split_pop (s : string) : string :=
  match s with
  | EmptyString => EmptyString
  | String c s' =>
      if includes "/" s' then split_pop s'
      else if Ascii.eqb c "/" then s' else s
  end.

(** Trailing slashes, which [path.basename] and [path.extname] skip. *)
Fixpoint strip_slashes (s : string) : string :=
  match s with
  | EmptyString => EmptyString
  | String c s' =>
      match strip_slashes s' with
      | EmptyString => if Ascii.eqb c "/" then EmptyString else String c EmptyString
      | r => String c r
      end
  end.

(** Node's [path.basename] on POSIX paths. *)
Definition basename (p : string) : string := split_pop (strip_slashes p).

(** The suffix of [s] that starts at its last dot, when [s] has a dot. *)
Fixpoint from_last_dot (s : string) : option string :=
  match s with
  | EmptyString => None
  | String c s' =>
      match from_last_dot s' with
      | Some e => Some e
      | None => if Ascii.eqb c "." then Some s else None
      end
  end.

(** Node's [path.extname]: from the last dot of the base name to its end;
    empty when there is no dot, when the only dot opens the base name, and
    for the base name [..]. *)
Definition extname (p : string) : string :=
  let b := basename p in
  match b with
  | EmptyString => ""
  | String c b' =>
      match from_last_dot b' with
      | Some e => if b =? ".." then "" else e
      | None => ""
      end
  end.

End JS.

(** ** Objects used as maps

    An object is the list of its own properties in the order [Object.keys]
    reports them: the keys that are array indices (canonical decimal numerals
    below [2^32 - 1]) first, in ascending numeric order, then the other keys in
    the order they were created.  Assigning to an existing key keeps its
    place. *)

Module Obj.

Definition t (A : Type) := list (string * A).

Definition is_digit (c : ascii) : bool :=
  (48 <=? nat_of_ascii c)%nat && (nat_of_ascii c <=? 57)%nat.

Fixpoint digits_value (acc : N) (s : string) : option N :=
  match s with
  | EmptyString => Some acc
  | String c s' =>
      if is_digit c
      then digits_value (acc * 10 + (N_of_ascii c - 48))%N s'
      else None
  end.

(** The number a key denotes when it is an array index. *)
Definition array_index (k : string) : option N :=
  match k with
  | EmptyString => None
  | String c rest =>
      if Ascii.eqb c "0" && negb (rest =? "") then None
      else match digits_value 0%N k with
           | Some n => if (n <? 4294967295)%N then Some n else None
           | None => None
           end
  end.

Section Operations.
Variable A : Type.

(** [o[k]] *)
Fixpoint get (k : string) (o : t A) : option A :=
  match o with
  | [] => None
  | (k', v) :: o' => if k' =? k then Some v else get k o'
  end.

Fixpoint update (k : string) (v : A) (o : t A) : t A :=
  match o with
  | [] => []
  | (k', v') :: o' => if k' =? k then (k', v) :: o' else (k', v') :: update k v o'
  end.

(** A new array-index key goes before the first key that is not an array
    index or denotes a greater number. *)
Fixpoint insert_index (n : N) (k : string) (v : A) (o : t A) : t A :=
  match o with
  | [] => [(k, v)]
  | (k', v') :: o' =>
      match array_index k' with
      | Some n' =>
          if (n' <? n)%N then (k', v') :: insert_index n k v o' else (k, v) :: o
      | None => (k, v) :: o
      end
  end.

(** [o[k] = v] *)
Definition set (k : string) (v : A) (o : t A) : t A :=
  match get k o with
  | Some _ => update k v o
  | None =>
      match array_index k with
      | Some n => insert_index n k v o
      | None => o ++ [(k, v)]
      end
  end.

(** [Object.keys(o)] *)
Definition keys (o : t A) : list string := map fst o.

End Operations.

End Obj.

(** ** The cache document *)

(** One item of [cacheContent.items]: [{ link, name, onChain }].  [link] and
    [name] are [None] when the property is [undefined]. *)
Record CacheRecord := mkRecord {
  link : option string;
  name : option string;
  onChain : bool
}.

(** [cacheContent.program]: [{ uuid, config }]. *)
Record ProgramState := mkProgram {
  uuid : option string;
  config : option string
}.

(** The parsed cache file.  [{}] is the document with neither property. *)
Record CacheDocument := mkDoc {
  program : option ProgramState;
  items : option (Obj.t CacheRecord)
}.

Definition empty_document : CacheDocument := mkDoc None None.
Definition empty_program : ProgramState := mkProgram None None.

(** ** Constants of the source *)

Definition MAINNET_CLUSTER_URL := "https://api.mainnet-beta.solana.com/".
Definition DEVNET_CLUSTER_URL := "https://api.devnet.solana.com/".
Definition TESTNET_CLUSTER_URL := "https://api.testnet.solana.com/".
Definition DEFAULT_CLUSTER_URL := DEVNET_CLUSTER_URL.

Definition extension := ".png".

Definition configArrayStart : nat :=
  32 + 4 + 6 + 4 + 10 + 2 + 1 + 4 + 5 * 34 + 8 + 1 + 1 + 4.
Definition configLineSize : nat := 4 + 32 + 4 + 200.

(** ** The outside world *)

(** The metadata file after it is read, rewritten and parsed: its [name]
    property and its serialisation. *)
Record Manifest := mkManifest {
  manifest_name : option string;
  manifest_json : string
}.

(** The multipart form posted to the storage service. *)
Record UploadRequest := mkRequest {
  req_transaction : string;
  req_env : option string;
  req_image : string;           (* path streamed as [image.png] *)
  req_metadata : string         (* buffer sent as [metadata.json] *)
}.

Record Message := mkMessage {
  filename : string;
  transactionId : option string
}.

(** The JSON answer of the storage service; [messages] may be missing. *)
Record UploadResponse := mkResponse {
  messages : option (list Message)
}.

(** One entry of the [addConfigLines] argument. *)
Record ConfigLine := mkLine {
  uri : option string;
  line_name : option string
}.

(** What the action observes of the file system, the cluster and the storage
    service.  A call that throws (or a promise that rejects) answers [None],
    or [false] where nothing is returned. *)
Record Env := mkEnv {
  url : string;
  (** the wallet key is read, the IDL fetched and a blockhash obtained *)
  connect : bool;
  (** [fs.readFileSync(image)] *)
  readImage : string -> bool;
  (** the manifest at a path, with the image name rewritten, parsed *)
  readManifest : string -> string -> option Manifest;
  (** [createConfig]: the uuid and the base-58 address of the new account *)
  createConfig : Manifest -> nat -> option (string * string);
  (** [sendTransactionWithRetryWithKeypair] for the item at a position: the
      [txid] *)
  sendPayment : nat -> option string;
  (** the POST to the storage service and its [.json()] *)
  uploadFile : UploadRequest -> option UploadResponse;
  (** [anchorProgram.rpc.addConfigLines] *)
  addConfigLines : string -> list ConfigLine -> option string
}.

(** What an action does that can be observed from outside. *)
Inductive event :=
| Log (what : string)
| ConsoleError (what : string)
| CreateConfig (size : nat)
| Payment (index : string)
| Upload (index : string) (request : UploadRequest)
| AddConfigLines (ind : string) (lines : list ConfigLine)
| WriteCache (doc : CacheDocument).

(** ** Actions

    A computation reads and writes the in-memory [cacheContent], may throw,
    and emits events in the order they happen. *)

Record Mem := mkMem {
  mem_program : ProgramState;
  mem_items : Obj.t CacheRecord
}.

Inductive outcome (A : Type) :=
| Returned (a : A)
| Thrown (e : string).
Arguments Returned {A} a.
Arguments Thrown {A} e.

Definition M (A : Type) := Mem -> outcome A * Mem * list event.

Definition ret {A} (a : A) : M A := fun m => (Returned a, m, []).

Definition bind {A B} (c : M A) (k : A -> M B) : M B :=
  fun m =>
    match c m with
    | (Returned a, m1, ev1) =>
        match k a m1 with
        | (r, m2, ev2) => (r, m2, ev1 ++ ev2)
        end
    | (Thrown e, m1, ev1) => (Thrown e, m1, ev1)
    end.

Notation "x <- c ;; k" := (bind c (fun x => k))
  (at level 61, c at next level, right associativity).
Notation "c ;; k" := (bind c (fun _ => k))
  (at level 61, right associativity).

Definition throw {A} (e : string) : M A := fun m => (Thrown e, m, []).
Definition emit (e : event) : M unit := fun m => (Returned tt, m, [e]).
Definition read : M Mem := fun m => (Returned m, m, []).
Definition write_mem (m' : Mem) : M unit := fun _ => (Returned tt, m', []).

(** [try { c } catch (e) { h e }] *)
Definition try_catch {A} (c : M A) (h : string -> M A) : M A :=
  fun m =>
    match c m with
    | (Returned a, m1, ev1) => (Returned a, m1, ev1)
    | (Thrown e, m1, ev1) =>
        match h e m1 with
        | (r, m2, ev2) => (r, m2, ev1 ++ ev2)
        end
    end.

(** [try { c } finally { f }] *)
Definition try_finally {A} (c : M A) (f : M unit) : M A :=
  fun m =>
    match c m with
    | (r, m1, ev1) =>
        match f m1 with
        | (Returned _, m2, ev2) => (r, m2, ev1 ++ ev2)
        | (Thrown e, m2, ev2) => (Thrown e, m2, ev1 ++ ev2)
        end
    end.

(** [for (const x of xs) body(x)], stopped by the first exception. *)
Fixpoint for_each {A} (body : A -> M unit) (xs : list A) : M unit :=
  match xs with
  | [] => ret tt
  | x :: xs' => body x ;; for_each body xs'
  end.

Definition document (m : Mem) : CacheDocument :=
  mkDoc (Some (mem_program m)) (Some (mem_items m)).

(** [fs.writeFileSync(cachePath, JSON.stringify(cacheContent))] *)
Definition save : M unit := m <- read ;; emit (WriteCache (document m)).

(** The cache file after a run that emitted [evs]: what the last
    [writeFileSync] stored.  [JSON.parse] gives back the document
    [JSON.stringify] was given. *)
Definition file_after (file : option CacheDocument) (evs : list event)
  : option CacheDocument :=
  fold_left (fun f e => match e with WriteCache d => Some d | _ => f end) evs file.

(** ** The upload action *)

(** The [switch (url)] that sets [env].  No case ends in [break]: from the
    label that matches, control runs through every later assignment. *)
Definition switch_env (url : string) : option string :=
  let env : option string := None in
  let entered := url =? MAINNET_CLUSTER_URL in
  let env := if entered then Some "mainnet" else env in
  let entered := entered || (url =? TESTNET_CLUSTER_URL) in
  let env := if entered then Some "testnet" else env in
  let entered := entered || (url =? DEVNET_CLUSTER_URL) in
  let env := if entered then Some "devnet" else env in
  env.

(** [f.replace(extension, '').split('/').pop()], the key under which a
    listed file is remembered in [seen]. *)
Definition seen_key (f : string) : string :=
  JS.split_pop (JS.replace extension "" f).

Definition is_seen (k : string) (seen : list string) : bool :=
  existsb (String.eqb k) seen.

(** The body of [files.forEach], on the pair ([seen], [newFiles]). *)
Definition see_file (acc : list string * list string) (f : string)
  : list string * list string :=
  let '(seen, newFiles) := acc in
  if negb (is_seen (seen_key f) seen)
  then (seen_key f :: seen, newFiles ++ [f])
  else (seen, newFiles).

(** The body of [existingInCache.forEach]. *)
Definition see_cached (acc : list string * list string) (f : string)
  : list string * list string :=
  let '(seen, newFiles) := acc in
  if negb (is_seen f seen)
  then (f :: seen, newFiles ++ [(f ++ ".png")%string])
  else (seen, newFiles).

Definition newFiles (files existingInCache : list string) : list string :=
  snd (fold_left see_cached existingInCache (fold_left see_file files ([], []))).

Definition images (files existingInCache : list string) : list string :=
  filter (fun val => JS.extname val =? extension) (newFiles files existingInCache).

(** [path.basename(image).replace(extension, '')] *)
Definition index_of (image : string) : string :=
  JS.replace extension "" (JS.basename image).

(** [cacheContent?.items?.[index]?.link] *)
Definition item_link (index : string) (m : Mem) : option string :=
  match Obj.get index (mem_items m) with
  | Some r => link r
  | None => None
  end.

(** [result.messages?.find(m => m.filename === 'manifest.json')] *)
Definition metadataFile (result : UploadResponse) : option Message :=
  match messages result with
  | Some ms => find (fun m => filename m =? "manifest.json") ms
  | None => None
  end.

(** [if (metadataFile?.transactionId) link = `https://arweave.net/${...}`]:
    the value of [link] after the answer is read. *)
Definition link_after_upload (result : UploadResponse) (link0 : option string)
  : option string :=
  match metadataFile result with
  | Some mf =>
      match transactionId mf with
      | Some id =>
          if JS.truthy (Some id)
          then Some ("https://arweave.net/" ++ id)%string
          else link0
      | None => link0
      end
  | None => link0
  end.

(** The [try] block that deploys the config, with its [catch]. *)
Definition initialize_config (E : Env) (SIZE : nat) (manifest : Manifest) : M unit :=
  try_catch
    (emit (CreateConfig SIZE) ;;
     match createConfig E manifest SIZE with
     | None => throw "createConfig"
     | Some (res_uuid, res_config) =>
         m <- read ;;
         write_mem (mkMem (mkProgram (Some res_uuid) (Some res_config)) (mem_items m)) ;;
         save
     end)
    (fun _ => emit (ConsoleError "Error deploying config to Solana network.")).

(** The body of [if (!link)]: the payment, which is outside any [try], then
    the upload and the item record inside one. *)
Definition pay_and_upload (E : Env) (env : option string) (i : nat)
    (image index : string) (link0 : option string) (manifest : Manifest) : M unit :=
  emit (Payment index) ;;
  match sendPayment E i with
  | None => throw "sendTransactionWithRetryWithKeypair"
  | Some txid =>
      emit (Log "transaction for arweave payment:") ;;
      let data := mkRequest txid env image (manifest_json manifest) in
      try_catch
        (emit (Upload index data) ;;
         match uploadFile E data with
         | None => throw "fetch"
         | Some result =>
             let link1 := link_after_upload result link0 in
             m <- read ;;
             write_mem (mkMem (mem_program m)
                          (Obj.set index
                             (mkRecord link1 (manifest_name manifest) false)
                             (mem_items m))) ;;
             save
         end)
        (fun _ => emit (ConsoleError ("Error uploading file " ++ index)%string))
  end.

(** One turn of [for (let i = 0; i < SIZE; i++)]. *)
Definition process_image (E : Env) (env : option string) (SIZE : nat)
    (i : nat) (image : string) : M unit :=
  let imageName := JS.basename image in
  let index := JS.replace extension "" imageName in
  emit (Log ("Processing file: " ++ index)%string) ;;
  m <- read ;;
  let link0 := item_link index m in
  if negb (JS.truthy link0) || negb (JS.truthy (uuid (mem_program m))) then
    (if readImage E image then ret tt else throw "readFileSync") ;;
    let manifestPath := JS.replace extension ".json" image in
    match readManifest E manifestPath imageName with
    | None => throw "readFileSync"
    | Some manifest =>
        (if (i =? 0)%nat && negb (JS.truthy (uuid (mem_program m)))
         then initialize_config E SIZE manifest
         else ret tt) ;;
        if negb (JS.truthy link0)
        then pay_and_upload E env i image index link0 manifest
        else ret tt
    end
  else ret tt.

Definition upload_loop (E : Env) (env : option string) (imgs : list string) : M unit :=
  for_each (fun p => process_image E env (List.length imgs) (fst p) (snd p))
           (combine (seq 0 (List.length imgs)) imgs).

(** ** Batch registration *)

(** [array.slice(a, b)] for [0 <= a]. *)
Definition slice {A} (a b : nat) (array : list A) : list A :=
  firstn (b - a) (skipn a array).

(** [Math.ceil(n / size)]; [size] is 1000 at the only call. *)
Definition ceil_div (n size : nat) : nat := (n + size - 1) / size.

Definition chunks {A} (array : list A) (size : nat) : list (list A) :=
  map (fun index => slice (index * size) ((index + 1) * size) array)
      (seq 0 (ceil_div (List.length array) size)).

(** The values [offset] takes in
    [for (let offset = 0; offset < len; offset += 10)]; [fuel] bounds the
    number of turns and [len] turns are always enough. *)
Fixpoint offsets (fuel offset len : nat) : list nat :=
  match fuel with
  | O => []
  | S fuel' =>
      if (offset <? len)%nat then offset :: offsets fuel' (offset + 10) len else []
  end.

(** The [indexes] of the successive turns of that loop. *)
Definition micro_batches (allIndexesInSlice : list nat) : list (list nat) :=
  map (fun offset => slice offset (offset + 10) allIndexesInSlice)
      (offsets (List.length allIndexesInSlice) 0 (List.length allIndexesInSlice)).

(** [keys[i]], for a position below [keys.length]. *)
Definition key_at (keys : list string) (i : nat) : string := nth i keys "".

(** [cacheContent.items[index]?.onChain] *)
Definition item_onChain (items : Obj.t CacheRecord) (index : string) : bool :=
  match Obj.get index items with
  | Some r => onChain r
  | None => false
  end.

(** The second argument of [addConfigLines]; reading [.link] of a missing
    item is a [TypeError]. *)
Fixpoint config_lines (keys : list string) (items : Obj.t CacheRecord)
    (indexes : list nat) : option (list ConfigLine) :=
  match indexes with
  | [] => Some []
  | i :: rest =>
      match Obj.get (key_at keys i) items, config_lines keys items rest with
      | Some r, Some ls => Some (mkLine (link r) (name r) :: ls)
      | _, _ => None
      end
  end.

(** [cacheContent.items[keys[i]] = { ...cacheContent.items[keys[i]], onChain: true }] *)
Definition mark_on_chain (keys : list string) (items : Obj.t CacheRecord) (i : nat)
  : Obj.t CacheRecord :=
  let k := key_at keys i in
  Obj.set k
    (match Obj.get k items with
     | Some r => mkRecord (link r) (name r) true
     | None => mkRecord None None true
     end)
    items.

(** One turn of the loop over the micro-batches of a macro-group.  The
    [await] is not inside a [try]: a rejected call ends the loop. *)
Definition register_micro_batch (E : Env) (keys : list string) (indexes : list nat)
  : M unit :=
  m <- read ;;
  let onChain := filter (fun i => item_onChain (mem_items m) (key_at keys i)) indexes in
  let ind := key_at keys (hd 0%nat indexes) in
  if negb (List.length onChain =? List.length indexes)%nat then
    emit (Log "Writing indices") ;;
    match config_lines keys (mem_items m) indexes with
    | None => throw "TypeError"
    | Some lines =>
        emit (AddConfigLines ind lines) ;;
        match addConfigLines E ind lines with
        | None => throw "addConfigLines"
        | Some _ =>
            m <- read ;;
            write_mem (mkMem (mem_program m)
                         (fold_left (mark_on_chain keys) indexes (mem_items m))) ;;
            save
        end
    end
  else ret tt.

(** The async callback given to [map]: one macro-group. *)
Definition register_group (E : Env) (keys : list string) (allIndexesInSlice : list nat)
  : M unit :=
  for_each (register_micro_batch E keys) (micro_batches allIndexesInSlice).

(** [await Promise.all(tasks)].  Every task runs to its end whether or not
    another one rejects, and the promise rejects when one of them does.  A
    task reads and writes the records of its own positions only, so the cache
    it leaves does not depend on how the tasks interleave at their awaits;
    the events are listed task by task. *)
Fixpoint promise_all (tasks : list (M unit)) : M unit :=
  fun m =>
    match tasks with
    | [] => (Returned tt, m, [])
    | task :: rest =>
        match task m with
        | (r1, m1, ev1) =>
            match promise_all rest m1 with
            | (r2, m2, ev2) =>
                (match r1 with Thrown e => Thrown e | Returned _ => r2 end,
                 m2, ev1 ++ ev2)
            end
        end
    end.

(** From [const keys = Object.keys(cacheContent.items)] to the end of the
    [try / catch / finally]. *)
Definition register_all (E : Env) : M unit :=
  m <- read ;;
  let keys := Obj.keys (mem_items m) in
  try_finally
    (try_catch
       (promise_all
          (map (register_group E keys) (chunks (seq 0 (List.length keys)) 1000)))
       (fun e => emit (ConsoleError e)))
    save.

(** What the upload action starts from: [savedContent || {}] with the
    missing [program] and [items] filled in, and [existingInCache]. *)
Definition cacheContent_of (file : option CacheDocument) : Mem :=
  let cacheContent := match file with Some d => d | None => empty_document end in
  mkMem (match program cacheContent with Some p => p | None => empty_program end)
        (match items cacheContent with Some o => o | None => [] end).

Definition existingInCache_of (file : option CacheDocument) : list string :=
  let cacheContent := match file with Some d => d | None => empty_document end in
  match items cacheContent with
  | Some o => Obj.keys o
  | None => []
  end.

(** The action of the [upload] command on the listed [files], with the cache
    file holding [file] ([None]: no such file). *)
Definition upload (E : Env) (files : list string) (file : option CacheDocument)
  : outcome unit * Mem * list event :=
  let env := switch_env (url E) in
  let imgs := images files (existingInCache_of file) in
  ((if connect E then ret tt else throw "setup") ;;
   upload_loop E env imgs ;;
   register_all E ;;
   emit (Log "Done"))
    (cacheContent_of file).

(** ** Regular expressions

    [s.match(p)] with a string [p] searches [s] for a match of
    [new RegExp(p)].  The patterns modelled here are those made of ordinary
    characters and the dot; [parse] answers [None] on any other syntax
    character. *)

Module RegExp.

Inductive atom :=
| Char (c : ascii)
| AnyChar.

Definition syntax_character (c : ascii) : bool :=
  existsb (Ascii.eqb c) (list_ascii_of_string "^$\.*+?()[]{}|").

Definition line_terminator (c : ascii) : bool :=
  Ascii.eqb c "010" || Ascii.eqb c "013".

Fixpoint parse (p : string) : option (list atom) :=
  match p with
  | EmptyString => Some []
  | String c p' =>
      if Ascii.eqb c "." then option_map (cons AnyChar) (parse p')
      else if syntax_character c then None
      else option_map (cons (Char c)) (parse p')
  end.

(** The dot matches every character but a line terminator. *)
Definition accepts (a : atom) (c : ascii) : bool :=
  match a with
  | Char x => Ascii.eqb x c
  | AnyChar => negb (line_terminator c)
  end.

Fixpoint match_at (r : list atom) (s : string) : bool :=
  match r, s with
  | [], _ => true
  | a :: r', String c s' => accepts a c && match_at r' s'
  | _ :: _, EmptyString => false
  end.

(** A match starts somewhere in [s]. *)
Fixpoint search (r : list atom) (s : string) : bool :=
  match_at r s ||
  match s with
  | EmptyString => false
  | String _ s' => search r s'
  end.

End RegExp.

(** ** The verify action *)

Section Verify.

(** [fromUTF8Array] of [./helper]: the string a byte buffer decodes to. *)
Variable fromUTF8Array : list Byte.byte -> string.

(** Whether [s.match(p)] finds a match, for a pattern [p] that uses more of
    the regular-expression syntax than [RegExp.parse] reads; a pattern that
    is not well formed throws. *)
Variable regexp_match : string -> string -> outcome bool.

(** [s.match(p) !== null]; [undefined] is the empty pattern. *)
Definition string_match (s : string) (p : option string) : outcome bool :=
  match p with
  | None => Returned true
  | Some p =>
      match RegExp.parse p with
      | Some r => Returned (RegExp.search r s)
      | None => regexp_match s p
      end
  end.

Definition lift {A} (r : outcome A) : M A :=
  match r with
  | Returned a => ret a
  | Thrown e => throw e
  end.

(** [config.data.slice(...)] for item [i]. *)
Definition thisSlice (data : list Byte.byte) (i : nat) : list Byte.byte :=
  slice (configArrayStart + 4 + configLineSize * i)
        (configArrayStart + 4 + configLineSize * (i + 1)) data.

Definition decoded_name (data : list Byte.byte) (i : nat) : string :=
  fromUTF8Array (slice 4 36 (thisSlice data i)).

Definition decoded_uri (data : list Byte.byte) (i : nat) : string :=
  fromUTF8Array (slice 40 240 (thisSlice data i)).

(** [!name.match(cacheItem.name) || !uri.match(cacheItem.link)]: the second
    match is not evaluated when the first fails. *)
Definition mismatch (name_ uri_ : string) (cacheItem : CacheRecord) : M bool :=
  name_found <- lift (string_match name_ (name cacheItem)) ;;
  if negb name_found then ret true
  else uri_found <- lift (string_match uri_ (link cacheItem)) ;;
       ret (negb uri_found).

(** One turn of [for (let i = 0; i < keys.length; i++)]. *)
Definition verify_item (data : list Byte.byte) (keys : list string) (i : nat) : M unit :=
  emit (Log "Looking at key ") ;;
  let key := key_at keys i in
  let name_ := decoded_name data i in
  let uri_ := decoded_uri data i in
  m <- read ;;
  match Obj.get key (mem_items m) with
  | None => throw "TypeError"
  | Some cacheItem =>
      differs <- mismatch name_ uri_ cacheItem ;;
      if differs then
        emit (Log "didnt match cache values, marking to rerun") ;;
        write_mem (mkMem (mem_program m)
                     (Obj.set key
                        (mkRecord (link cacheItem) (name cacheItem) false)
                        (mem_items m)))
      else emit (Log "checked out")
  end.

(** The action of the [verify] command.  [account] is what
    [getAccountInfo(new PublicKey(...))] finds for the cached config address:
    the bytes of the account, [None] when the key is refused or no account
    is found. *)
Definition verify (account : option string -> option (list Byte.byte))
    (file : option CacheDocument) : outcome unit * list event :=
  match file with
  | None => (Thrown "TypeError", [])
  | Some cachedContent =>
      match program cachedContent with
      | None => (Thrown "TypeError", [])
      | Some p =>
          match account (config p) with
          | None => (Thrown "getAccountInfo", [])
          | Some data =>
              match items cachedContent with
              | None => (Thrown "TypeError", [Log "Number"])
              | Some its =>
                  let keys := Obj.keys its in
                  match (emit (Log "Number") ;;
                         for_each (verify_item data keys) (seq 0 (List.length keys)) ;;
                         save) (mkMem p its) with
                  | (r, _, evs) => (r, evs)
                  end
              end
          end
      end
  end.

End Verify.

(** Modelled from the spec: [fromUTF8Array] is defined in [./helper], which
    is not among the sources.  The name and uri buffers are fixed-width UTF-8
    byte buffers, trimmed of trailing padding; a byte is read as the character
    of the same code, which is its UTF-8 reading below 128. *)
Fixpoint trim_padding (bs : list Byte.byte) : list Byte.byte :=
  match bs with
  | [] => []
  | b :: bs' =>
      match trim_padding bs' with
      | [] => if Byte.eqb b Byte.x00 then [] else [b]
      | r => b :: r
      end
  end.

Definition decode_buffer (bs : list Byte.byte) : string :=
  string_of_list_byte (trim_padding bs).

(** ** Vocabulary of the properties *)

(** [triple Pre c Post Exn P]: started in a memory satisfying [Pre], the
    computation [c] ends in a memory satisfying [Post] when it returns and
    [Exn] when it throws, and every event it emits satisfies [P]. *)
Definition triple {A} (Pre : Mem -> Prop) (c : M A) (Post : A -> Mem -> Prop)
    (Exn : Mem -> Prop) (P : event -> Prop) : Prop :=
  forall m, Pre m ->
    match c m with
    | (Returned a, m', evs) => Post a m' /\ Forall P evs
    | (Thrown _, m', evs) => Exn m' /\ Forall P evs
    end.

(** [c] keeps the invariant [I] and emits only events satisfying [P]. *)
Definition keeps {A} (I : Mem -> Prop) (P : event -> Prop) (c : M A) : Prop :=
  triple I c (fun _ => I) I P.

(** [l1] is [l2] with some elements left out. *)
Inductive subseq {A} : list A -> list A -> Prop :=
| subseq_nil : subseq [] []
| subseq_skip x l1 l2 : subseq l1 l2 -> subseq l1 (x :: l2)
| subseq_take x l1 l2 : subseq l1 l2 -> subseq (x :: l1) (x :: l2).


(** The batch-write calls among some events, in order. *)
Definition submissions (evs : list event) : list (string * list ConfigLine) :=
  flat_map (fun e => match e with AddConfigLines ind ls => [(ind, ls)] | _ => [] end) evs.

(** An event that reaches the cluster or the storage service. *)
Definition is_network (e : event) : bool :=
  match e with
  | CreateConfig _ | Payment _ | Upload _ _ | AddConfigLines _ _ => true
  | Log _ | ConsoleError _ | WriteCache _ => false
  end.





(** A pattern without any syntax character: it stands for itself. *)
Definition plain (p : string) : bool :=
  forallb (fun c => negb (RegExp.syntax_character c)) (list_ascii_of_string p).

(** The events of a list that reach the cluster or the storage service. *)
Definition network_events (evs : list event) : list event := filter is_network evs.

(** In the words of the specification: the files kept by a pass that
    preserves the order and keeps, for each key, its first occurrence among
    the files whose key is not in [seen] already. *)
Fixpoint keep_first (key : string -> string) (seen : list string)
    (files : list string) : list string :=
  match files with
  | [] => []
  | f :: rest =>
      if is_seen (key f) seen then keep_first key seen rest
      else f :: keep_first key (key f :: seen) rest
  end.

(** [f] stands in [files] before any other file of the same key. *)
Definition first_of_its_key (key : string -> string) (files : list string)
    (f : string) : Prop :=
  exists before after,
    files = before ++ f :: after /\ ~ In (key f) (map key before).

(** [newFiles] when [files.forEach] is done. *)
Definition listed (files : list string) : list string :=
  snd (fold_left see_file files ([], [])).


(** What [{ ...item, onChain: true }] is for a looked-up item. *)
Definition marked (r : option CacheRecord) : CacheRecord :=
  match r with
  | Some r => mkRecord (link r) (name r) true
  | None => mkRecord None None true
  end.



(** The names of the images are stable: the key an image is stored under,
    with [.png] appended, is a path with that same key.  It is so for every
    file name that holds [.png] once, at its end. *)
Definition stable_names (files : list string) (file : option CacheDocument) : Prop :=
  forall image, In image (images files (existingInCache_of file)) ->
    index_of (index_of image ++ ".png") = index_of image.





Section LinkInvariant.

(** Whether every environment of interest rejects a line without a uri. *)
Variable strict : Prop.





End LinkInvariant.


(** ** Sample inputs *)

Definition decimal (n : nat) : string := NilEmpty.string_of_uint (Nat.to_uint n).

(** A cache of [n] uploaded, unregistered items with the keys [0 .. n-1]. *)
Definition numbered_items (n : nat) : Obj.t CacheRecord :=
  map (fun i => (decimal i,
                 mkRecord (Some ("https://arweave.net/tx" ++ decimal i)%string)
                          (Some ("Item #" ++ decimal i)%string)
                          false))
      (seq 0 n).

Definition registered_program : ProgramState :=
  mkProgram (Some "9xQeWv") (Some "9xQeWvG816bUx9EPjHmaT23yvVM2ZWbrrpZb9PusVFin").

(** The storage service answers with a record for the image, one for the
    metadata under the name it was sent with, and one named [manifest.json]. *)
Definition answer_with_manifest (r : UploadRequest) : option UploadResponse :=
  Some (mkResponse (Some [mkMessage "image.png" (Some "img-tx");
                          mkMessage "metadata.json" (Some "meta-tx");
                          mkMessage "manifest.json" (Some "manifest-tx")])).


Definition sample_manifest (path imageName : string) : option Manifest :=
  Some (mkManifest (Some ("Item " ++ imageName)%string) "{}").

(** Every call succeeds. *)
Definition calm_env : Env :=
  mkEnv DEVNET_CLUSTER_URL true (fun _ => true) sample_manifest
        (fun _ _ => Some ("9xQeWv", "9xQeWvG816bUx9EPjHmaT23yvVM2ZWbrrpZb9PusVFin"))
        (fun _ => Some "payment-tx")
        answer_with_manifest
        (fun _ _ => Some "lines-tx").


(** As [calm_env], but the batch write that starts at key [0] is rejected. *)
Definition env_first_batch_rejected : Env :=
  mkEnv DEVNET_CLUSTER_URL true (fun _ => true) sample_manifest
        (fun _ _ => Some ("9xQeWv", "9xQeWvG816bUx9EPjHmaT23yvVM2ZWbrrpZb9PusVFin"))
        (fun _ => Some "payment-tx")
        answer_with_manifest
        (fun ind _ => if ind =? "0" then None else Some "lines-tx").

Definition sample_files : list string :=
  ["assets/0.png"; "assets/0.json"; "assets/1.png"; "assets/1.json"].

(** No pattern beyond the modelled ones is accepted. *)
Definition no_regexp (s p : string) : outcome bool := Thrown "SyntaxError".

Definition pad (n : nat) (bs : list Byte.byte) : list Byte.byte :=
  bs ++ repeat Byte.x00 (n - List.length bs).

Definition u32_le (n : nat) : list Byte.byte :=
  [match Byte.of_nat n with Some b => b | None => Byte.x00 end;
   Byte.x00; Byte.x00; Byte.x00].

(** One config line as the ledger program lays it out:
    [4-byte length][32-byte name][4-byte length][200-byte uri]. *)
Definition ledger_line (name_ uri_ : string) : list Byte.byte :=
  u32_le (String.length name_) ++ pad 32 (list_byte_of_string name_) ++
  u32_le (String.length uri_) ++ pad 200 (list_byte_of_string uri_).

(** The bytes of a config account that holds the given lines. *)
Definition ledger_account (lines : list (string * string)) : list Byte.byte :=
  repeat Byte.x00 configArrayStart ++ u32_le (List.length lines) ++
  flat_map (fun l => ledger_line (fst l) (snd l)) lines.

(** Four registered items whose links end in the decimal of their key. *)
Definition registered_items : Obj.t CacheRecord :=
  map (fun i => (decimal i,
                 mkRecord (Some ("https://arweave.net/tx" ++ decimal i)%string)
                          (Some ("Item #" ++ decimal i)%string)
                          true))
      (seq 0 4).

Definition registered_cache : option CacheDocument :=
  Some (mkDoc (Some registered_program) (Some registered_items)).

(** The account holds the cached names and uris. *)
Definition faithful_account : list Byte.byte :=
  ledger_account [("Item #0", "https://arweave.net/tx0");
                  ("Item #1", "https://arweave.net/tx1");
                  ("Item #2", "https://arweave.net/tx2");
                  ("Item #3", "https://arweave.net/tx3")].

(** The uri of line 3 differs from the cached link in one character, where
    the link has a dot. *)
Definition altered_account : list Byte.byte :=
  ledger_account [("Item #0", "https://arweave.net/tx0");
                  ("Item #1", "https://arweave.net/tx1");
                  ("Item #2", "https://arweave.net/tx2");
                  ("Item #3", "https://arweaveXnet/tx3")].

(** The uri of line 3 is another one altogether. *)
Definition foreign_account : list Byte.byte :=
  ledger_account [("Item #0", "https://arweave.net/tx0");
                  ("Item #1", "https://arweave.net/tx1");
                  ("Item #2", "https://arweave.net/tx2");
                  ("Item #3", "https://arweave.net/other")].




(** ** Further vocabulary *)

(** [size] in [createConfig]: the bytes of the config account for
    [maxNumberOfLines] lines. *)
Definition config_size (maxNumberOfLines : nat) : nat :=
  configArrayStart + 4 + maxNumberOfLines * configLineSize + 4
  + ceil_div maxNumberOfLines 8.

(** The indices paid for among some events, in order. *)
Definition charges (evs : list event) : list string :=
  flat_map (fun e => match e with Payment i => [i] | _ => [] end) evs.

(** The indices of the storage uploads among some events, in order. *)
Definition upload_indices (evs : list event) : list string :=
  flat_map (fun e => match e with Upload i _ => [i] | _ => [] end) evs.

(** The config deployments among some events. *)
Definition creations (evs : list event) : list nat :=
  flat_map (fun e => match e with CreateConfig n => [n] | _ => [] end) evs.

(** The documents written to the cache file among some events, in order. *)
Definition writes (evs : list event) : list CacheDocument :=
  flat_map (fun e => match e with WriteCache d => [d] | _ => [] end) evs.

(** [r'] is [r] with, at most, its [onChain] cleared. *)
Definition at_most_cleared (r r' : CacheRecord) : Prop :=
  link r' = link r /\ name r' = name r /\ (onChain r' = true -> onChain r = true).

(** [its'] has the keys of [its], in the same order, and each of its
    records is the one of [its] with, at most, its [onChain] cleared. *)
Definition only_cleared (its its' : Obj.t CacheRecord) : Prop :=
  Obj.keys its' = Obj.keys its /\
  forall k r, Obj.get k its = Some r ->
    exists r', Obj.get k its' = Some r' /\ at_most_cleared r r'.

Definition is_log (e : event) : Prop :=
  match e with
  | Log _ => True
  | _ => False
  end.

(** A cache whose first item differs from the account and whose second item
    has a name that is no regular expression. *)
Definition unparsable_cache : option CacheDocument :=
  Some (mkDoc (Some registered_program)
          (Some [("0", mkRecord (Some "https://arweave.net/tx0") (Some "Item #9") true);
                 ("1", mkRecord (Some "https://arweave.net/tx1") (Some "Item (#1") true)])).

(** As [calm_env], but every payment is refused. *)
Definition env_payment_refused : Env :=
  mkEnv DEVNET_CLUSTER_URL true (fun _ => true) sample_manifest
        (fun _ _ => Some ("9xQeWv", "9xQeWvG816bUx9EPjHmaT23yvVM2ZWbrrpZb9PusVFin"))
        (fun _ => None)
        answer_with_manifest
        (fun _ _ => Some "lines-tx").

(** Neither a payment nor a storage upload nor the creation of a config. *)
Definition is_registration_event (e : event) : Prop :=
  match e with
  | Payment _ | Upload _ _ | CreateConfig _ => False
  | _ => True
  end.

(** A computation that started in [m0], ended in [m'] and emitted [evs] has
    left the cache file in step with the memory: it wrote nothing and the
    memory is as it was, or the last document it wrote is the memory. *)
Definition in_sync (m0 m' : Mem) (evs : list event) : Prop :=
  (writes evs = [] /\ m' = m0) \/
  (exists earlier, writes evs = earlier ++ [document m']).

Definition synced {A} (c : M A) : Prop :=
  forall m, match c m with (_, m', evs) => in_sync m m' evs end.

(** [its'] has the keys of [its], in the same order, and each of its
    records is the one of [its] with, at most, its [onChain] set. *)
Definition only_marked (its its' : Obj.t CacheRecord) : Prop :=
  Obj.keys its' = Obj.keys its /\
  forall k r, Obj.get k its = Some r ->
    exists r', Obj.get k its' = Some r' /\
               link r' = link r /\ name r' = name r /\
               (onChain r = true -> onChain r' = true).

(** As [calm_env], but the storage service cannot be reached. *)
Definition env_storage_down : Env :=
  mkEnv DEVNET_CLUSTER_URL true (fun _ => true) sample_manifest
        (fun _ _ => Some ("9xQeWv", "9xQeWvG816bUx9EPjHmaT23yvVM2ZWbrrpZb9PusVFin"))
        (fun _ => Some "payment-tx")
        (fun _ => None)
        (fun _ _ => Some "lines-tx").

(** As [calm_env], but the config account cannot be created. *)
Definition env_config_refused : Env :=
  mkEnv DEVNET_CLUSTER_URL true (fun _ => true) sample_manifest
        (fun _ _ => None)
        (fun _ => Some "payment-tx")
        answer_with_manifest
        (fun _ _ => Some "lines-tx").

(** * Properties *)

Unset Implicit Arguments.

(** ** Objects *)

Section ObjFacts.
Variable A : Type.
Implicit Types (o : Obj.t A) (k : string) (v : A).

Lemma get_update_same k v o x :
  Obj.get k o = Some x -> Obj.get k (Obj.update k v o) = Some v.
Proof.
  induction o as [|[k' v'] o IH]; simpl; [discriminate|].
  destruct (k' =? k) eqn:Hk; simpl; rewrite Hk; auto.
Qed.

Lemma get_update_other k k' v o :
  k' <> k -> Obj.get k' (Obj.update k v o) = Obj.get k' o.
Proof.
  intros Hne. induction o as [|[k0 v0] o IH]; simpl; [reflexivity|].
  destruct (k0 =? k) eqn:Hk; simpl.
  - apply String.eqb_eq in Hk. subst k0.
    destruct (k =? k') eqn:Hk'; [apply String.eqb_eq in Hk'; congruence | reflexivity].
  - rewrite IH. reflexivity.
Qed.

Lemma get_insert_index_same n k v o :
  Obj.get k o = None -> Obj.get k (Obj.insert_index n k v o) = Some v.
Proof.
  induction o as [|[k' v'] o IH]; simpl; intros H.
  - rewrite String.eqb_refl. reflexivity.
  - destruct (k' =? k) eqn:Hk; [discriminate|].
    destruct (Obj.array_index k') as [n'|]; [destruct (n' <? n)%N|];
      simpl; rewrite ?Hk, ?String.eqb_refl; auto.
Qed.

Lemma get_insert_index_other n k k' v o :
  k' <> k -> Obj.get k' (Obj.insert_index n k v o) = Obj.get k' o.
Proof.
  intros Hne.
  assert (Hkk : (k =? k') = false) by (apply String.eqb_neq; congruence).
  induction o as [|[k0 v0] o IH]; simpl.
  - rewrite Hkk. reflexivity.
  - destruct (Obj.array_index k0) as [n'|]; [destruct (n' <? n)%N|];
      simpl; rewrite ?Hkk, ?IH; reflexivity.
Qed.

Lemma get_app_same k v o :
  Obj.get k o = None -> Obj.get k (o ++ [(k, v)]) = Some v.
Proof.
  induction o as [|[k' v'] o IH]; simpl; intros H.
  - rewrite String.eqb_refl. reflexivity.
  - destruct (k' =? k); [discriminate | auto].
Qed.

Lemma get_app_other k k' v o :
  k' <> k -> Obj.get k' (o ++ [(k, v)]) = Obj.get k' o.
Proof.
  intros Hne. induction o as [|[k0 v0] o IH]; simpl.
  - destruct (k =? k') eqn:Hk; [apply String.eqb_eq in Hk; congruence | reflexivity].
  - rewrite IH. reflexivity.
Qed.

Lemma get_set_same k v o : Obj.get k (Obj.set k v o) = Some v.
Proof.
  unfold Obj.set. destruct (Obj.get k o) eqn:Hg.
  - eapply get_update_same; eauto.
  - destruct (Obj.array_index k).
    + apply get_insert_index_same; assumption.
    + apply get_app_same; assumption.
Qed.

Lemma get_set_other k k' v o :
  k' <> k -> Obj.get k' (Obj.set k v o) = Obj.get k' o.
Proof.
  intros Hne. unfold Obj.set. destruct (Obj.get k o).
  - apply get_update_other; assumption.
  - destruct (Obj.array_index k).
    + apply get_insert_index_other; assumption.
    + apply get_app_other; assumption.
Qed.

Lemma keys_update k v o : Obj.keys (Obj.update k v o) = Obj.keys o.
Proof.
  induction o as [|[k' v'] o IH]; simpl; [reflexivity|].
  destruct (k' =? k); simpl; [reflexivity | f_equal; exact IH].
Qed.

Lemma keys_set_present k v o x :
  Obj.get k o = Some x -> Obj.keys (Obj.set k v o) = Obj.keys o.
Proof.
  intros H. unfold Obj.set. rewrite H. apply keys_update.
Qed.

Lemma get_in_keys k o : In k (Obj.keys o) <-> Obj.get k o <> None.
Proof.
  induction o as [|[k' v'] o IH]; simpl.
  - split; [tauto | congruence].
  - destruct (k' =? k) eqn:Hk.
    + apply String.eqb_eq in Hk. split; [discriminate | auto].
    + apply String.eqb_neq in Hk. rewrite <- IH. tauto.
Qed.

Lemma get_some_in_keys k o x : Obj.get k o = Some x -> In k (Obj.keys o).
Proof. intros H. apply get_in_keys. congruence. Qed.

Lemma keys_in_get k o : In k (Obj.keys o) -> exists x, Obj.get k o = Some x.
Proof.
  intros H. apply get_in_keys in H. destruct (Obj.get k o) as [x|]; [eauto | congruence].
Qed.

End ObjFacts.

(** ** Rules for computations *)

Section Rules.
Context {A B : Type}.
Implicit Types (Pre Exn : Mem -> Prop) (P : event -> Prop).

Lemma triple_ret Pre Exn P (a : A) (Post : A -> Mem -> Prop) :
  (forall m, Pre m -> Post a m) -> triple Pre (ret a) Post Exn P.
Proof. intros H m Hm. simpl. auto. Qed.

Lemma triple_throw Pre Exn P e (Post : A -> Mem -> Prop) :
  (forall m, Pre m -> Exn m) -> triple Pre (throw e) Post Exn P.
Proof. intros H m Hm. simpl. auto. Qed.

Lemma triple_bind Pre Exn P (c : M A) (k : A -> M B) Mid (Post : B -> Mem -> Prop) :
  triple Pre c Mid Exn P ->
  (forall a, triple (Mid a) (k a) Post Exn P) ->
  triple Pre (bind c k) Post Exn P.
Proof.
  intros Hc Hk m Hm. unfold bind. specialize (Hc m Hm).
  destruct (c m) as [[[a|e] m1] ev1]; [|exact Hc].
  destruct Hc as [Hmid Hev1]. specialize (Hk a m1 Hmid).
  destruct (k a m1) as [[[b|e] m2] ev2]; destruct Hk as [Hpost Hev2];
    (split; [assumption | apply Forall_app; auto]).
Qed.

Lemma triple_weaken Pre Pre' Exn Exn' P (c : M A) (Post Post' : A -> Mem -> Prop) :
  triple Pre c Post Exn P ->
  (forall m, Pre' m -> Pre m) ->
  (forall a m, Post a m -> Post' a m) ->
  (forall m, Exn m -> Exn' m) ->
  triple Pre' c Post' Exn' P.
Proof.
  intros H H1 H2 H3 m Hm. specialize (H m (H1 m Hm)).
  destruct (c m) as [[[a|e] m1] ev1]; destruct H; auto.
Qed.

Lemma triple_try_catch Pre Exn P (c : M A) h Mid (Post : A -> Mem -> Prop) :
  triple Pre c Post Mid P ->
  (forall e, triple Mid (h e) Post Exn P) ->
  triple Pre (try_catch c h) Post Exn P.
Proof.
  intros Hc Hh m Hm. unfold try_catch. specialize (Hc m Hm).
  destruct (c m) as [[[a|e] m1] ev1]; [exact Hc|].
  destruct Hc as [Hmid Hev1]. specialize (Hh e m1 Hmid).
  destruct (h e m1) as [[[b|e'] m2] ev2]; destruct Hh as [Hpost Hev2];
    (split; [assumption | apply Forall_app; auto]).
Qed.

End Rules.

Lemma triple_emit Pre Exn P e :
  P e -> triple Pre (emit e) (fun _ => Pre) Exn P.
Proof. intros H m Hm. simpl. auto. Qed.

Lemma triple_read Pre Exn P :
  triple Pre read (fun a m => a = m /\ Pre m) Exn P.
Proof. intros m Hm. simpl. auto. Qed.

Lemma triple_write_mem Pre Exn P m' (Post : Mem -> Prop) :
  Post m' -> triple Pre (write_mem m') (fun _ => Post) Exn P.
Proof. intros H m Hm. simpl. auto. Qed.

Lemma triple_save I Exn P :
  (forall m, I m -> P (WriteCache (document m))) ->
  triple I save (fun _ => I) Exn P.
Proof. intros H m Hm. simpl. auto. Qed.

Lemma keeps_try_finally {A} I P (c : M A) f :
  keeps I P c -> keeps I P f -> keeps I P (try_finally c f).
Proof.
  intros Hc Hf m Hm. unfold try_finally. specialize (Hc m Hm).
  destruct (c m) as [[r m1] ev1].
  assert (I m1 /\ Forall P ev1) as [H1 He1] by (destruct r; exact Hc).
  specialize (Hf m1 H1).
  destruct (f m1) as [[[[]|e] m2] ev2]; destruct Hf as [H2 He2].
  - destruct r; (split; [assumption | apply Forall_app; auto]).
  - split; [assumption | apply Forall_app; auto].
Qed.

Lemma keeps_for_each {A} I P (body : A -> M unit) xs :
  (forall x, In x xs -> keeps I P (body x)) -> keeps I P (for_each body xs).
Proof.
  induction xs as [|x xs IH]; intros H; simpl.
  - apply triple_ret. auto.
  - apply triple_bind with (Mid := fun _ => I).
    + apply H. left. reflexivity.
    + intros u. apply IH. intros y Hy. apply H. right. exact Hy.
Qed.

Lemma keeps_promise_all I P tasks :
  (forall t, In t tasks -> keeps I P t) -> keeps I P (promise_all tasks).
Proof.
  induction tasks as [|t tasks IH]; intros H m Hm; simpl.
  - auto.
  - pose proof (H t (or_introl eq_refl) m Hm) as Ht.
    destruct (t m) as [[r1 m1] ev1].
    assert (I m1 /\ Forall P ev1) as [H1 He1] by (destruct r1; exact Ht).
    specialize (IH (fun t' Ht' => H t' (or_intror Ht')) m1 H1).
    destruct (promise_all tasks m1) as [[r2 m2] ev2].
    assert (I m2 /\ Forall P ev2) as [H2 He2] by (destruct r2; exact IH).
    destruct r1; [destruct r2|]; (split; [assumption | apply Forall_app; auto]).
Qed.

(** ** An invariant rule for the upload action *)

Lemma link_after_upload_cases result link0 :
  link_after_upload result link0 = link0 \/
  exists id, id <> "" /\
    link_after_upload result link0 = Some ("https://arweave.net/" ++ id)%string.
Proof.
  unfold link_after_upload.
  destruct (metadataFile result) as [mf|]; [|left; reflexivity].
  destruct (transactionId mf) as [id|]; [|left; reflexivity].
  destruct (JS.truthy (Some id)) eqn:Ht; [|left; reflexivity].
  right. exists id. split; [|reflexivity].
  intros ->. discriminate Ht.
Qed.

Section UploadRule.

Variable I : Mem -> Prop.
Variable P : event -> Prop.
Variable E : Env.
Variable env : option string.
Variable imgs : list string.

Hypothesis P_log : forall s, P (Log s).
Hypothesis P_error : forall s, P (ConsoleError s).
Hypothesis P_create : forall n, P (CreateConfig n).
Hypothesis P_write : forall m, I m -> P (WriteCache (document m)).
Hypothesis P_payment : forall m image,
  In image imgs -> I m -> JS.truthy (item_link (index_of image) m) = false ->
  P (Payment (index_of image)).
Hypothesis P_upload : forall m image txid json,
  In image imgs -> I m -> JS.truthy (item_link (index_of image) m) = false ->
  P (Upload (index_of image) (mkRequest txid env image json)).
Hypothesis P_submit : forall m ind keys indexes lines,
  I m -> config_lines keys (mem_items m) indexes = Some lines ->
  P (AddConfigLines ind lines).
Hypothesis I_program : forall m u c,
  I m -> I (mkMem (mkProgram (Some u) (Some c)) (mem_items m)).
Hypothesis I_item : forall m image l nm,
  In image imgs -> I m -> JS.truthy (item_link (index_of image) m) = false ->
  (l = item_link (index_of image) m \/
   exists id, id <> "" /\ l = Some ("https://arweave.net/" ++ id)%string) ->
  I (mkMem (mem_program m)
           (Obj.set (index_of image) (mkRecord l nm false) (mem_items m))).
Hypothesis I_mark : forall m ind keys indexes lines txid,
  I m -> config_lines keys (mem_items m) indexes = Some lines ->
  addConfigLines E ind lines = Some txid ->
  I (mkMem (mem_program m) (fold_left (mark_on_chain keys) indexes (mem_items m))).

Lemma initialize_config_keeps its SIZE manifest :
  keeps (fun m => I m /\ mem_items m = its) P (initialize_config E SIZE manifest).
Proof.
  set (J := fun m => I m /\ mem_items m = its).
  unfold initialize_config. apply triple_try_catch with (Mid := J).
  - apply triple_bind with (Mid := fun _ => J); [apply triple_emit; auto|].
    intros _u. destruct (createConfig E manifest SIZE) as [[u c]|].
    + apply triple_bind with (Mid := fun a m => a = m /\ J m); [apply triple_read|].
      intros a. apply triple_bind with (Mid := fun _ => J).
      * intros m [-> [Hm Hi]]. simpl. split; [|constructor].
        split; [apply I_program; exact Hm | exact Hi].
      * intros _v. apply triple_save. intros m [Hm _]. auto.
    + apply triple_throw. auto.
  - intros e. apply triple_emit. auto.
Qed.

Lemma pay_and_upload_keeps i image link0 manifest its :
  In image imgs ->
  link0 = item_link (index_of image) (mkMem empty_program its) ->
  JS.truthy link0 = false ->
  triple (fun m => I m /\ mem_items m = its)
         (pay_and_upload E env i image (index_of image) link0 manifest)
         (fun _ => I) I P.
Proof.
  intros Himg Hl Hf. set (index := index_of image) in *.
  set (J := fun m => I m /\ mem_items m = its).
  assert (HJ : forall m, J m -> JS.truthy (item_link index m) = false).
  { intros m [_ Hi]. unfold item_link in *. rewrite Hi. simpl in Hl.
    rewrite <- Hl. exact Hf. }
  assert (HJl : forall m, J m -> item_link index m = link0).
  { intros m [_ Hi]. unfold item_link in *. rewrite Hi. simpl in Hl. congruence. }
  unfold pay_and_upload.
  apply triple_bind with (Mid := fun _ => J).
  { intros m Hm. simpl. split; [exact Hm|]. constructor; [|constructor].
    destruct Hm as [Hm Hi]. eapply P_payment; [exact Himg | exact Hm | apply HJ; split; auto]. }
  intros _u. destruct (sendPayment E i) as [txid|].
  2:{ apply triple_throw. intros m [Hm _]. exact Hm. }
  apply triple_bind with (Mid := fun _ => J); [apply triple_emit; auto|].
  intros _v. apply triple_try_catch with (Mid := I).
  - apply triple_bind with (Mid := fun _ => J).
    { intros m Hm. simpl. split; [exact Hm|]. constructor; [|constructor].
      destruct Hm as [Hm Hi]. eapply P_upload; [exact Himg | exact Hm | apply HJ; split; auto]. }
    intros _w. destruct (uploadFile E _) as [result|].
    2:{ apply triple_throw. intros m [Hm _]. exact Hm. }
    apply triple_bind with (Mid := fun a m => a = m /\ J m); [apply triple_read|].
    intros a. apply triple_bind with (Mid := fun _ => I).
    + intros m [-> Hm]. simpl. split; [|constructor].
      apply I_item; [exact Himg | exact (proj1 Hm) | apply HJ; exact Hm |].
      fold index. rewrite (HJl m Hm). apply link_after_upload_cases.
    + intros _x. apply triple_save. auto.
  - intros e. apply triple_emit. auto.
Qed.

Lemma process_image_keeps SIZE i image :
  In image imgs -> keeps I P (process_image E env SIZE i image).
Proof.
  intros Himg. unfold process_image.
  apply triple_bind with (Mid := fun _ => I); [apply triple_emit; auto|].
  intros _u.
  apply triple_bind with (Mid := fun a m => a = m /\ I m); [apply triple_read|].
  intros a.
  change (JS.replace extension "" (JS.basename image)) with (index_of image).
  set (index := index_of image).
  set (J := fun m => I m /\ mem_items m = mem_items a).
  assert (HaJ : forall m, a = m /\ I m -> J m) by (intros m [-> Hm]; split; auto).
  destruct (negb (JS.truthy (item_link index a)) ||
            negb (JS.truthy (uuid (mem_program a)))).
  2:{ apply triple_ret. intros m [_ Hm]. exact Hm. }
  apply triple_bind with (Mid := fun _ => J).
  { destruct (readImage E image).
    - apply triple_ret. auto.
    - apply triple_throw. intros m [_ Hm]. exact Hm. }
  intros _v.
  destruct (readManifest E _ _) as [manifest|].
  2:{ apply triple_throw. intros m [Hm _]. exact Hm. }
  apply triple_bind with (Mid := fun _ => J).
  { destruct ((i =? 0)%nat && negb (JS.truthy (uuid (mem_program a)))).
    - eapply triple_weaken; [apply initialize_config_keeps with (its := mem_items a) | | |];
        simpl; auto. intros m [Hm _]. exact Hm.
    - apply triple_ret. auto. }
  intros _w.
  destruct (JS.truthy (item_link index a)) eqn:Ht; simpl.
  - apply triple_ret. intros m [Hm _]. exact Hm.
  - apply pay_and_upload_keeps; [exact Himg | | exact Ht].
    unfold item_link. reflexivity.
Qed.

Lemma upload_loop_keeps : keeps I P (upload_loop E env imgs).
Proof.
  unfold upload_loop. apply keeps_for_each. intros x Hx.
  apply process_image_keeps. destruct x as [i image].
  exact (in_combine_r _ _ _ _ Hx).
Qed.

Lemma register_micro_batch_keeps keys indexes :
  keeps I P (register_micro_batch E keys indexes).
Proof.
  unfold register_micro_batch.
  apply triple_bind with (Mid := fun a m => a = m /\ I m); [apply triple_read|].
  intros a.
  destruct (negb _).
  2:{ apply triple_ret. intros m [_ Hm]. exact Hm. }
  apply triple_bind with (Mid := fun _ m => a = m /\ I m); [apply triple_emit; auto|].
  intros _u. destruct (config_lines keys (mem_items a) indexes) as [lines|] eqn:Hl.
  2:{ apply triple_throw. intros m [_ Hm]. exact Hm. }
  apply triple_bind with (Mid := fun _ m => a = m /\ I m).
  { intros m [-> Hm]. simpl. split; [auto|]. constructor; [|constructor].
    eapply P_submit; eauto. }
  intros _v. destruct (addConfigLines E _ lines) as [txid|] eqn:Hrpc.
  2:{ apply triple_throw. intros m [_ Hm]. exact Hm. }
  apply triple_bind with (Mid := fun b m => b = m /\ a = m /\ I m).
  { intros m Hm. simpl. auto. }
  intros b. apply triple_bind with (Mid := fun _ => I).
  - intros m [-> [-> Hm]]. simpl. split; [|constructor].
    eapply I_mark; eauto.
  - intros _w. apply triple_save. auto.
Qed.

Lemma register_all_keeps : keeps I P (register_all E).
Proof.
  unfold register_all.
  apply triple_bind with (Mid := fun _ => I).
  { intros m Hm. simpl. auto. }
  intros a. apply keeps_try_finally.
  - apply triple_try_catch with (Mid := I).
    + apply keeps_promise_all. intros t Ht. apply in_map_iff in Ht.
      destruct Ht as [g [<- _]]. unfold register_group.
      apply keeps_for_each. intros x _. apply register_micro_batch_keeps.
    + intros e. apply triple_emit. auto.
  - apply triple_save. auto.
Qed.

Lemma upload_keeps files file :
  env = switch_env (url E) ->
  imgs = images files (existingInCache_of file) ->
  I (cacheContent_of file) ->
  I (snd (fst (upload E files file))) /\ Forall P (snd (upload E files file)).
Proof.
  intros He Hi H0. unfold upload. rewrite <- He, <- Hi.
  assert (K : keeps I P
    ((if connect E then ret tt else throw "setup") ;;
     upload_loop E env imgs ;;
     register_all E ;; emit (Log "Done"))).
  { apply triple_bind with (Mid := fun _ => I).
    { destruct (connect E); [apply triple_ret | apply triple_throw]; auto. }
    intros _u. apply triple_bind with (Mid := fun _ => I); [apply upload_loop_keeps|].
    intros _v. apply triple_bind with (Mid := fun _ => I); [apply register_all_keeps|].
    intros _w. apply triple_emit. auto. }
  specialize (K _ H0). cbv beta in K.
  match type of K with
  | match ?c with _ => _ end => destruct c as [[[a|e] m'] evs]
  end; simpl; exact K.
Qed.

End UploadRule.

(** ** Macro-groups and micro-batches *)




Lemma offsets_bounds fuel off len o :
  In o (offsets fuel off len) -> (o < len)%nat.
Proof.
  revert off. induction fuel as [|fuel IH]; simpl; intros off H; [contradiction|].
  destruct (off <? len)%nat eqn:Hlt; [|contradiction].
  apply Nat.ltb_lt in Hlt. destruct H as [<-|H]; [exact Hlt | eauto].
Qed.




(** ** The passes over the listing and the cache *)

Lemma is_seen_in k seen : is_seen k seen = true <-> In k seen.
Proof.
  unfold is_seen. rewrite existsb_exists. split.
  - intros [x [Hx Heq]]. apply String.eqb_eq in Heq. subst. exact Hx.
  - intros H. exists k. split; [exact H | apply String.eqb_refl].
Qed.

Lemma is_seen_not_in k seen : is_seen k seen = false <-> ~ In k seen.
Proof.
  rewrite <- is_seen_in. destruct (is_seen k seen); split; congruence.
Qed.


Lemma subseq_refl {A} (l : list A) : subseq l l.
Proof. induction l; [apply subseq_nil | apply subseq_take; assumption]. Qed.

Lemma subseq_app {A} (a b c d : list A) :
  subseq a b -> subseq c d -> subseq (a ++ c) (b ++ d).
Proof.
  induction 1; simpl; intros Hcd.
  - exact Hcd.
  - apply subseq_skip. auto.
  - apply subseq_take. auto.
Qed.

Lemma subseq_In {A} (a b : list A) x : subseq a b -> In x a -> In x b.
Proof.
  induction 1; simpl; intros Hin; auto.
  destruct Hin as [<-|Hin]; auto.
Qed.

Lemma subseq_filter {A} (f : A -> bool) (a b : list A) :
  subseq a b -> subseq (filter f a) (filter f b).
Proof.
  induction 1; simpl.
  - apply subseq_nil.
  - destruct (f x); [apply subseq_skip|]; assumption.
  - destruct (f x); [apply subseq_take|]; assumption.
Qed.

Section KeepFirst.
Variable key : string -> string.

Lemma keep_first_subseq files : forall seen,
  subseq (keep_first key seen files) files.
Proof.
  induction files as [|f rest IH]; intros seen; simpl.
  - apply subseq_nil.
  - destruct (is_seen (key f) seen); [apply subseq_skip | apply subseq_take]; apply IH.
Qed.



(** What is kept is what comes first for its key and was not seen before. *)
Lemma keep_first_spec files : forall seen f,
  In f (keep_first key seen files) <->
  first_of_its_key key files f /\ ~ In (key f) seen.
Proof.
  unfold first_of_its_key.
  induction files as [|g rest IH]; intros seen f; simpl.
  - split; [tauto|]. intros [[b [a [H _]]] _]. destruct b; discriminate.
  - destruct (is_seen (key g) seen) eqn:Hs.
    + rewrite IH. apply is_seen_in in Hs. split.
      * intros [[b [a [-> Hb]]] Hn]. split; [|exact Hn].
        exists (g :: b), a. split; [reflexivity|].
        simpl. intros [Heq|Hin]; [|tauto]. apply Hn. rewrite <- Heq. exact Hs.
      * intros [[b [a [Heq Hb]]] Hn]. split; [|exact Hn].
        destruct b as [|g' b]; simpl in Heq; injection Heq as -> ->.
        -- contradiction.
        -- exists b, a. split; [reflexivity|]. simpl in Hb. tauto.
    + apply is_seen_not_in in Hs. simpl. rewrite IH. split.
      * intros [<-|[[b [a [-> Hb]]] Hn]].
        -- split; [|exact Hs]. exists [], rest. split; [reflexivity | simpl; tauto].
        -- split; [|simpl in Hn; tauto].
           exists (g :: b), a. split; [reflexivity|].
           simpl in *. tauto.
      * intros [[b [a [Heq Hb]]] Hn].
        destruct b as [|g' b]; simpl in Heq; injection Heq as -> ->.
        -- left. reflexivity.
        -- right. split; [exists b, a; split; [reflexivity | simpl in Hb; tauto]|].
           simpl in *. tauto.
Qed.

End KeepFirst.

(** The two [forEach] loops of the source are such passes. *)
Lemma fold_see_file files : forall seen acc,
  fold_left see_file files (seen, acc) =
  (rev (map seen_key (keep_first seen_key seen files)) ++ seen,
   acc ++ keep_first seen_key seen files).
Proof.
  induction files as [|f rest IH]; intros seen acc; simpl.
  - rewrite app_nil_r. reflexivity.
  - destruct (is_seen (seen_key f) seen); simpl.
    + apply IH.
    + rewrite IH. rewrite <- !app_assoc. reflexivity.
Qed.

Lemma fold_see_cached existing : forall seen acc,
  fold_left see_cached existing (seen, acc) =
  (rev (keep_first (fun k => k) seen existing) ++ seen,
   acc ++ map (fun k => (k ++ ".png")%string) (keep_first (fun k => k) seen existing)).
Proof.
  induction existing as [|f rest IH]; intros seen acc; simpl.
  - rewrite app_nil_r. reflexivity.
  - destruct (is_seen f seen); simpl.
    + apply IH.
    + rewrite IH. rewrite <- !app_assoc. reflexivity.
Qed.

Lemma listed_keep_first files : listed files = keep_first seen_key [] files.
Proof. unfold listed. rewrite fold_see_file. reflexivity. Qed.

Lemma newFiles_parts files existing :
  newFiles files existing =
  listed files ++
  map (fun k => (k ++ ".png")%string)
      (keep_first (fun k => k) (rev (map seen_key (listed files))) existing).
Proof.
  unfold newFiles. rewrite fold_see_file, fold_see_cached, listed_keep_first.
  simpl. rewrite app_nil_r. reflexivity.
Qed.

(** A cached key with [.png] appended is an image path. *)

Lemma strip_slashes_app_png k : JS.strip_slashes (k ++ ".png") = (k ++ ".png")%string.
Proof.
  induction k as [|c k IH]; [reflexivity|].
  cbn [append JS.strip_slashes]. rewrite IH.
  destruct k; reflexivity.
Qed.

Lemma includes_slash_app_png k :
  JS.includes "/" (k ++ ".png") = JS.includes "/" k.
Proof.
  induction k as [|c k IH]; [reflexivity|].
  cbn [append JS.includes]. rewrite IH.
  cbn [prefix]. destruct (ascii_dec "/" c); [|reflexivity].
  destruct k; reflexivity.
Qed.

Lemma split_pop_app_png k :
  JS.split_pop (k ++ ".png") = (JS.split_pop k ++ ".png")%string.
Proof.
  induction k as [|c k IH]; [reflexivity|].
  cbn [append JS.split_pop]. rewrite includes_slash_app_png, IH.
  destruct (JS.includes "/" k); [reflexivity|].
  destruct (Ascii.eqb c "/"); reflexivity.
Qed.








Lemma first_occurrence k (l : list string) :
  In k l -> exists before after, l = before ++ k :: after /\ ~ In k before.
Proof.
  induction l as [|x l IH]; simpl; [tauto|]. intros H.
  destruct (string_dec x k) as [->|Hne].
  - exists [], l. split; [reflexivity | simpl; tauto].
  - destruct H as [H|H]; [congruence|].
    destruct (IH H) as [b [a [-> Hb]]].
    exists (x :: b), a. split; [reflexivity|]. simpl. tauto.
Qed.


(** The images are the listed files and the unseen cached keys that end in
    [.png]. *)
Lemma in_images files existing image :
  In image (images files existing) <->
  (JS.extname image =? extension) = true /\
  (In image (listed files) \/
   exists k, image = (k ++ ".png")%string /\ In k existing /\
             ~ In k (map seen_key (listed files))).
Proof.
  unfold images. rewrite filter_In, newFiles_parts, in_app_iff, in_map_iff.
  split.
  - intros [H Hext]. split; [exact Hext|].
    destruct H as [H|[k [Hk Hin]]]; [left; exact H|]. right.
    apply keep_first_spec in Hin. destruct Hin as [[b [a [Heq _]]] Hn].
    exists k. repeat split; [auto | rewrite Heq; apply in_elt |].
    intros Hs. apply Hn. apply -> in_rev. exact Hs.
  - intros [Hext H]. split; [|exact Hext].
    destruct H as [Hl|[k [-> [Hin Hn]]]]; [left; exact Hl|]. right.
    exists k. split; [reflexivity|]. apply keep_first_spec. split.
    + destruct (first_occurrence k existing Hin) as [b [a [Heq Hb]]].
      exists b, a. split; [exact Heq | rewrite map_id; exact Hb].
    + intros Hs. apply Hn. apply in_rev. exact Hs.
Qed.

(** ** Keys and file names *)

Lemma ascii_dec_eqb a b : (if ascii_dec a b then true else false) = Ascii.eqb a b.
Proof.
  destruct (ascii_dec a b) as [->|Hne]; [symmetry; apply Ascii.eqb_refl|].
  symmetry. apply Ascii.eqb_neq. exact Hne.
Qed.

Lemma includes_slash_cons c s :
  JS.includes "/" (String c s) = Ascii.eqb "/" c || JS.includes "/" s.
Proof.
  cbn [JS.includes prefix]. rewrite <- ascii_dec_eqb.
  destruct (ascii_dec "/" c); [destruct s|]; reflexivity.
Qed.

Lemma split_pop_no_slash s : JS.includes "/" (JS.split_pop s) = false.
Proof.
  induction s as [|c s IH]; [reflexivity|].
  cbn [JS.split_pop]. destruct (JS.includes "/" s) eqn:Hs; [exact IH|].
  destruct (Ascii.eqb c "/") eqn:Hc; [exact Hs|].
  rewrite includes_slash_cons, Hs, Ascii.eqb_sym, Hc. reflexivity.
Qed.

Lemma split_pop_id s : JS.includes "/" s = false -> JS.split_pop s = s.
Proof.
  destruct s as [|c s]; [reflexivity|].
  rewrite includes_slash_cons. intros H. apply orb_false_iff in H.
  destruct H as [Hc Hs]. cbn [JS.split_pop].
  rewrite Hs, Ascii.eqb_sym, Hc. reflexivity.
Qed.

Lemma includes_slash_drop n : forall s,
  JS.includes "/" s = false -> JS.includes "/" (JS.drop n s) = false.
Proof.
  induction n as [|n IH]; intros s H; [exact H|].
  destruct s as [|c s]; [reflexivity|]. simpl JS.drop. apply IH.
  rewrite includes_slash_cons in H. apply orb_false_iff in H. tauto.
Qed.

Lemma replace_no_slash pat s :
  JS.includes "/" s = false -> JS.includes "/" (JS.replace pat "" s) = false.
Proof.
  induction s as [|c s IH]; intros H.
  - cbn [JS.replace]. destruct (prefix pat ""); [|reflexivity].
    cbn [append]. apply includes_slash_drop. reflexivity.
  - cbn [JS.replace]. destruct (prefix pat (String c s)).
    + cbn [append]. apply includes_slash_drop. exact H.
    + rewrite includes_slash_cons in *. apply orb_false_iff in H.
      destruct H as [Hc Hs]. rewrite Hc, (IH Hs). reflexivity.
Qed.

(** The key of an image has no slash. *)
Lemma index_of_no_slash image : JS.includes "/" (index_of image) = false.
Proof.
  unfold index_of, JS.basename. apply replace_no_slash. apply split_pop_no_slash.
Qed.

Lemma prefix_png_app s :
  prefix ".png" (s ++ ".png") = true -> s = "" \/ prefix ".png" s = true.
Proof.
  destruct s as [|a [|b [|c [|d s]]]]; cbn [append prefix]; auto;
    repeat match goal with
           | |- context [ascii_dec ?x ?y] => destruct (ascii_dec x y); try subst
           end; auto; try discriminate.
  intros _. right. destruct s; reflexivity.
Qed.

Lemma includes_cons_false t c s :
  JS.includes t (String c s) = false ->
  prefix t (String c s) = false /\ JS.includes t s = false.
Proof.
  cbn [JS.includes]. destruct (prefix t (String c s)); [discriminate | auto].
Qed.

(** Appending [.png] to a text without it and taking it off again gives the
    text back. *)
Lemma replace_app_png k :
  JS.includes ".png" k = false -> JS.replace ".png" "" (k ++ ".png") = k.
Proof.
  induction k as [|c k IH]; intros H; [reflexivity|].
  apply includes_cons_false in H. destruct H as [Hp Hk].
  cbn [append JS.replace].
  destruct (prefix ".png" (String c (k ++ ".png"))) eqn:Hpre.
  - apply (prefix_png_app (String c k)) in Hpre.
    destruct Hpre as [Hnil|Hpre]; [discriminate | congruence].
  - rewrite (IH Hk). reflexivity.
Qed.

Lemma index_of_app_png k :
  JS.includes "/" k = false -> JS.includes ".png" k = false ->
  index_of (k ++ ".png") = k.
Proof.
  intros Hs Hp. unfold index_of, JS.basename, extension.
  rewrite strip_slashes_app_png, split_pop_app_png, (split_pop_id k Hs).
  apply replace_app_png. exact Hp.
Qed.

(** The names are stable when no key of an image holds [.png]: each file
    name has [.png] once, at its end. *)
Lemma single_png_names_are_stable files file :
  (forall image, In image (images files (existingInCache_of file)) ->
     JS.includes ".png" (index_of image) = false) ->
  stable_names files file.
Proof.
  intros H image Hin. apply index_of_app_png.
  - apply index_of_no_slash.
  - apply H. exact Hin.
Qed.

(** The key of an image is not empty. *)
Lemma index_of_image_nonempty image :
  JS.extname image = ".png" -> index_of image <> "".
Proof.
  unfold JS.extname, index_of, extension.
  destruct (JS.basename image) as [|c b] eqn:Hb; [discriminate|].
  destruct (JS.from_last_dot b) as [e|] eqn:He; [|discriminate]. intros _.
  cbn [JS.replace]. destruct (prefix ".png" (String c b)) eqn:Hp; [|discriminate].
  cbn [append].
  destruct b as [|x [|y [|z rest]]]; cbn [prefix] in Hp;
    repeat match type of Hp with
           | context [ascii_dec ?a ?b] => destruct (ascii_dec a b); try subst
           end; try discriminate.
  simpl JS.drop. destruct rest; [simpl in He|]; discriminate.
Qed.


(** ** The definitions on small inputs *)

Example seen_key_of_image : seen_key "assets/0.png" = "0".
Proof. reflexivity. Qed.

Example seen_key_of_manifest : seen_key "assets/0.json" = "0.json".
Proof. reflexivity. Qed.

Example index_of_image : index_of "assets/12.png" = "12".
Proof. reflexivity. Qed.

Example extname_examples :
  map JS.extname ["a/0.png"; "a/0.json"; "a/.png"; "a/x."; "a.b/c"; ".."] =
  [".png"; ".json"; ""; "."; ""; ""].
Proof. reflexivity. Qed.

(** A file whose key was seen is dropped; a cached key that no file has is
    appended. *)
Example images_with_duplicates :
  images ["a/0.png"; "a/0.json"; "a/0"; "a/1.png"; "b/1.png"] ["1"; "7"] =
  ["a/0.png"; "a/1.png"; "7.png"].
Proof. reflexivity. Qed.

(** Keys that are array indices come first, in numeric order. *)
Example keys_in_object_order :
  Obj.keys (Obj.set "2" 2 (Obj.set "b" 1 (Obj.set "10" 10 (Obj.set "a" 0 []))))
  = ["2"; "10"; "a"; "b"].
Proof. reflexivity. Qed.

Example chunks_of_five : chunks [1; 2; 3; 4; 5] 2 = [[1; 2]; [3; 4]; [5]].
Proof. reflexivity. Qed.

Example micro_batches_of_23 :
  map (@List.length nat) (micro_batches (seq 0 23)) = [10; 10; 3]%nat.
Proof. reflexivity. Qed.

Example dot_matches_any_character :
  string_match no_regexp "https://arweaveXnet/a" (Some "https://arweave.net/a")
  = Returned true.
Proof. reflexivity. Qed.

Example plain_pattern_is_containment :
  string_match no_regexp "Item #30" (Some "Item #3") = Returned true /\
  string_match no_regexp "Item #4" (Some "Item #3") = Returned false.
Proof. split; reflexivity. Qed.

(** ** The environment tag *)

Lemma upload_requests_carry_env E files file :
  Forall (fun e => match e with
                   | Upload _ r => req_env r = switch_env (url E)
                   | _ => True
                   end)
         (snd (upload E files file)).
Proof.
  apply (upload_keeps (fun _ => True)) with
    (env := switch_env (url E)) (imgs := images files (existingInCache_of file));
    simpl; auto.
Qed.

(** C10: for each of the three recognised cluster URLs the [switch] leaves
    [env] at ['devnet'], because no case ends in [break]; for any other URL
    [env] stays [undefined]; and every storage upload request of the run
    carries that value as its environment tag. *)
Theorem upload_env_tag_falls_through :
  switch_env MAINNET_CLUSTER_URL = Some "devnet" /\
  switch_env TESTNET_CLUSTER_URL = Some "devnet" /\
  switch_env DEVNET_CLUSTER_URL = Some "devnet" /\
  (forall u, switch_env u =
             if (u =? MAINNET_CLUSTER_URL) || (u =? TESTNET_CLUSTER_URL)
                || (u =? DEVNET_CLUSTER_URL)
             then Some "devnet" else None) /\
  (forall E files file index request,
     In (Upload index request) (snd (upload E files file)) ->
     req_env request = switch_env (url E)).
Proof.
  repeat split; try reflexivity.
  - intros u. unfold switch_env.
    destruct (u =? MAINNET_CLUSTER_URL), (u =? TESTNET_CLUSTER_URL),
      (u =? DEVNET_CLUSTER_URL); reflexivity.
  - intros E files file index request Hin.
    pose proof (upload_requests_carry_env E files file) as H.
    rewrite Forall_forall in H. exact (H _ Hin).
Qed.

(** ** The batch boundary *)

(** C6: when the cache holds exactly 2001 items, the registration phase
    splits the positions into three macro-groups of 1000, 1000 and 1
    positions, in that order, and the first macro-group into 100
    micro-batches of 10 positions each (the second likewise, the third into
    one micro-batch of one position); together the micro-batches list the
    positions 0 to 2000 in order. *)
Theorem partition_of_2001_items (m : Mem) :
  List.length (Obj.keys (mem_items m)) = 2001%nat ->
  let keys := Obj.keys (mem_items m) in
  let groups := chunks (seq 0 (List.length keys)) 1000 in
  map (@List.length nat) groups = [1000; 1000; 1]%nat /\
  map (@List.length nat) (micro_batches (nth 0 groups [])) = repeat 10%nat 100 /\
  map (fun group => map (@List.length nat) (micro_batches group)) groups =
    [repeat 10%nat 100; repeat 10%nat 100; [1%nat]] /\
  List.concat (List.concat (map micro_batches groups)) = seq 0 2001.
Proof.
  intros H keys groups. subst groups keys. rewrite H.
  repeat split; vm_compute; reflexivity.
Qed.

Lemma partition_of_2001_items_witness :
  let m := mkMem registered_program (numbered_items 2001) in
  let groups := chunks (seq 0 (List.length (Obj.keys (mem_items m)))) 1000 in
  List.length (Obj.keys (mem_items m)) = 2001%nat /\
  map (@List.length nat) groups = [1000; 1000; 1]%nat /\
  map (@List.length nat) (micro_batches (nth 0 groups [])) = repeat 10%nat 100.
Proof.
  intros m groups.
  assert (H : List.length (Obj.keys (mem_items m)) = 2001%nat)
    by (vm_compute; reflexivity).
  destruct (partition_of_2001_items m H) as [H1 [H2 _]].
  split; [exact H | split; [exact H1 | exact H2]].
Defined.

(** ** One micro-batch *)








(** ** A rejected batch write *)






(** ** The link taken from the storage answer *)




(** ** A missing cache file *)

(** C9: reading the cache of a missing file gives [undefined] in every
    command.  The upload action goes on from the empty document; the verify
    action dereferences [undefined] and throws before it does anything. *)
Theorem verify_without_cache_file decoder regexp account E files :
  verify decoder regexp account None = (Thrown "TypeError", []) /\
  cacheContent_of None = mkMem empty_program [] /\
  upload E files None =
    ((if connect E then ret tt else throw "setup") ;;
     upload_loop E (switch_env (url E)) (images files []) ;;
     register_all E ;;
     emit (Log "Done")) (mkMem empty_program []).
Proof. repeat split. Qed.

(** ** The verifier *)

Lemma slice_slice {A} a b c d (l : list A) :
  slice a b (slice c d l) = slice (c + a) (c + a + Nat.min (b - a) (d - c - a)) l.
Proof.
  unfold slice. rewrite skipn_firstn_comm, firstn_firstn, skipn_skipn.
  f_equal; [lia | f_equal; lia].
Qed.

(** The name and the uri of item [i] are decoded from fixed places of the
    account. *)
Lemma decoded_fields decoder data i :
  let off := configArrayStart + 4 + i * configLineSize in
  decoded_name decoder data i = decoder (slice (off + 4) (off + 36) data) /\
  decoded_uri decoder data i = decoder (slice (off + 40) (off + 240) data).
Proof.
  unfold decoded_name, decoded_uri, thisSlice. rewrite !slice_slice.
  unfold configArrayStart, configLineSize.
  split; f_equal; f_equal; lia.
Qed.

Lemma prefix_match_at p : forall r s,
  RegExp.parse p = Some r -> prefix p s = true -> RegExp.match_at r s = true.
Proof.
  induction p as [|c p IH]; simpl; intros r s Hp Hs.
  - injection Hp as <-. reflexivity.
  - destruct s as [|d s]; simpl in Hs; [discriminate|].
    destruct (ascii_dec c d) as [<-|]; [|discriminate].
    destruct (Ascii.eqb c ".") eqn:Hdot.
    + destruct (RegExp.parse p) as [r'|]; [|discriminate]. injection Hp as <-.
      simpl. rewrite (IH r' s eq_refl Hs).
      apply Ascii.eqb_eq in Hdot. subst c. reflexivity.
    + destruct (RegExp.syntax_character c); [discriminate|].
      destruct (RegExp.parse p) as [r'|]; [|discriminate]. injection Hp as <-.
      simpl. rewrite Ascii.eqb_refl, (IH r' s eq_refl Hs). reflexivity.
Qed.

(** A string that contains the pattern text matches it. *)
Lemma includes_search p r : forall s,
  RegExp.parse p = Some r -> JS.includes p s = true -> RegExp.search r s = true.
Proof.
  intros s Hp. induction s as [|d s IH].
  - destruct p; simpl; intros H; [|discriminate].
    simpl in Hp. injection Hp as <-. reflexivity.
  - cbn [JS.includes RegExp.search].
    destruct (prefix p (String d s)) eqn:Hpre; intros H.
    + rewrite (prefix_match_at p r _ Hp Hpre). reflexivity.
    + rewrite (IH H). apply orb_true_r.
Qed.

Lemma syntax_character_dot : RegExp.syntax_character "." = true.
Proof. reflexivity. Qed.

Lemma plain_match_at p : forall r s,
  plain p = true -> RegExp.parse p = Some r -> RegExp.match_at r s = prefix p s.
Proof.
  unfold plain.
  induction p as [|c p IH]; simpl; intros r s Hpl Hp.
  - injection Hp as <-. destruct s; reflexivity.
  - apply andb_true_iff in Hpl. destruct Hpl as [Hc Hpl].
    apply negb_true_iff in Hc.
    destruct (Ascii.eqb c ".") eqn:Hdot.
    { apply Ascii.eqb_eq in Hdot. subst c. rewrite syntax_character_dot in Hc.
      discriminate. }
    rewrite Hc in Hp.
    destruct (RegExp.parse p) as [r'|] eqn:Hr; [|discriminate]. injection Hp as <-.
    destruct s as [|d s]; simpl; [reflexivity|].
    destruct (ascii_dec c d) as [<-|Hne].
    + rewrite Ascii.eqb_refl. simpl. apply IH; auto.
    + destruct (Ascii.eqb c d) eqn:Hcd; [apply Ascii.eqb_eq in Hcd; congruence|].
      reflexivity.
Qed.

Lemma plain_parses p : plain p = true -> exists r, RegExp.parse p = Some r.
Proof.
  unfold plain. induction p as [|c p IH]; simpl; intros H; [eauto|].
  apply andb_true_iff in H. destruct H as [Hc Hpl].
  apply negb_true_iff in Hc. destruct (IH Hpl) as [r Hr].
  destruct (Ascii.eqb c ".") eqn:Hdot.
  { apply Ascii.eqb_eq in Hdot. subst c. rewrite syntax_character_dot in Hc.
    discriminate. }
  rewrite Hc, Hr. simpl. eauto.
Qed.

(** For a plain pattern a match is an occurrence. *)
Lemma plain_search p r : forall s,
  plain p = true -> RegExp.parse p = Some r -> RegExp.search r s = JS.includes p s.
Proof.
  intros s Hpl Hp. induction s as [|d s IH]; cbn [JS.includes RegExp.search].
  - rewrite (plain_match_at p r "" Hpl Hp). destruct (prefix p ""); reflexivity.
  - rewrite (plain_match_at p r _ Hpl Hp), IH.
    destruct (prefix p (String d s)); reflexivity.
Qed.

(** C5 (amended): for the item at position [i] the verifier decodes the name
    from bytes [4..36) and the uri from bytes [40..240) of the record at
    offset [configArrayStart + 4 + i * configLineSize], and searches each
    decoded string for a match of the cached value read as a regular
    expression.  It leaves the item as it is when both are found and
    otherwise sets its [onChain] to [false], keeping its link and name; no
    other item and nothing of the program state is changed, and nothing is
    sent to the cluster.  A decoded string that contains the cached value
    matches it whenever the value is made of ordinary characters and dots,
    and for a value without any syntax character matching is containment;
    a missing value matches everything. *)
Theorem verifier_matches_by_pattern
    decoder regexp data keys i m cacheItem name_found uri_found :
  let off := configArrayStart + 4 + i * configLineSize in
  let name_ := decoder (slice (off + 4) (off + 36) data) in
  let uri_ := decoder (slice (off + 40) (off + 240) data) in
  let key := key_at keys i in
  Obj.get key (mem_items m) = Some cacheItem ->
  string_match regexp name_ (name cacheItem) = Returned name_found ->
  (name_found = true ->
   string_match regexp uri_ (link cacheItem) = Returned uri_found) ->
  (exists evs,
     verify_item decoder regexp data keys i m =
       (Returned tt,
        mkMem (mem_program m)
              (if name_found && uri_found then mem_items m
               else Obj.set key (mkRecord (link cacheItem) (name cacheItem) false)
                            (mem_items m)),
        evs) /\
     network_events evs = []) /\
  (forall k, k <> key ->
     Obj.get k (Obj.set key (mkRecord (link cacheItem) (name cacheItem) false)
                        (mem_items m)) = Obj.get k (mem_items m)) /\
  (forall s p r, RegExp.parse p = Some r -> JS.includes p s = true ->
     string_match regexp s (Some p) = Returned true) /\
  (forall s p, plain p = true ->
     string_match regexp s (Some p) = Returned (JS.includes p s)) /\
  (forall s, string_match regexp s None = Returned true).
Proof.
  intros off name_ uri_ key Hget Hname Huri.
  destruct (decoded_fields decoder data i) as [Hdn Hdu].
  fold off in Hdn, Hdu. fold name_ in Hdn. fold uri_ in Hdu.
  repeat split.
  - destruct m as [prog its]. simpl in *.
    unfold verify_item, bind, emit, read, mismatch. simpl.
    fold key. rewrite Hget, Hdn, Hdu. unfold bind. rewrite Hname. simpl.
    destruct name_found; simpl.
    + rewrite (Huri eq_refl). simpl.
      destruct uri_found; simpl; eexists; (split; [reflexivity|]); reflexivity.
    + eexists. split; reflexivity.
  - intros k Hk. apply get_set_other. exact Hk.
  - intros s p r Hp Hinc. unfold string_match. rewrite Hp.
    rewrite (includes_search p r s Hp Hinc). reflexivity.
  - intros s p Hpl. unfold string_match.
    destruct (plain_parses p Hpl) as [r Hr]. rewrite Hr.
    rewrite (plain_search p r s Hpl Hr). reflexivity.
Qed.

(** C5 as stated fails: the cached link is not contained in the uri decoded
    for item 3, which differs from it where the link has a dot; the verifier
    finds a match all the same and leaves the item on chain. *)
Lemma verifier_keeps_flag_without_containment :
  let run := verify decode_buffer no_regexp (fun _ => Some altered_account)
                    registered_cache in
  Obj.get "3" registered_items =
    Some (mkRecord (Some "https://arweave.net/tx3") (Some "Item #3") true) /\
  decoded_uri decode_buffer altered_account 3 = "https://arweaveXnet/tx3" /\
  JS.includes "https://arweave.net/tx3" "https://arweaveXnet/tx3" = false /\
  fst run = Returned tt /\
  file_after registered_cache (snd run) = registered_cache.
Proof. vm_compute. repeat split. Qed.

Lemma verifier_matches_by_pattern_witness :
  exists evs,
    verify_item decode_buffer no_regexp foreign_account (Obj.keys registered_items) 3
                (mkMem registered_program registered_items) =
      (Returned tt,
       mkMem registered_program
             (Obj.set "3"
                (mkRecord (Some "https://arweave.net/tx3") (Some "Item #3") false)
                registered_items),
       evs) /\
    network_events evs = [].
Proof.
  apply (verifier_matches_by_pattern decode_buffer no_regexp foreign_account
           (Obj.keys registered_items) 3 (mkMem registered_program registered_items)
           (mkRecord (Some "https://arweave.net/tx3") (Some "Item #3") true)
           true false).
  - vm_compute. reflexivity.
  - vm_compute. reflexivity.
  - intros _. vm_compute. reflexivity.
Defined.

(** ** The ordered item set *)


(** ** Running the upload again *)

Lemma mark_on_chain_get keys items i k :
  Obj.get k (mark_on_chain keys items i) =
  if key_at keys i =? k then Some (marked (Obj.get k items)) else Obj.get k items.
Proof.
  unfold mark_on_chain. destruct (key_at keys i =? k) eqn:Hk.
  - apply String.eqb_eq in Hk. subst k. rewrite get_set_same. reflexivity.
  - apply String.eqb_neq in Hk. apply get_set_other. congruence.
Qed.

Lemma fold_mark_get keys indexes : forall items k,
  Obj.get k (fold_left (mark_on_chain keys) indexes items) =
  if existsb (fun i => key_at keys i =? k) indexes
  then Some (marked (Obj.get k items)) else Obj.get k items.
Proof.
  induction indexes as [|i rest IH]; intros items k; simpl; [reflexivity|].
  rewrite IH, mark_on_chain_get.
  destruct (key_at keys i =? k); simpl.
  - destruct (existsb _ rest); [|reflexivity].
    destruct (Obj.get k items); reflexivity.
  - reflexivity.
Qed.










(** ** A run in which nothing fails *)

Lemma fold_mark_keys keys indexes : forall items,
  (forall i, In i indexes -> In (key_at keys i) (Obj.keys items)) ->
  Obj.keys (fold_left (mark_on_chain keys) indexes items) = Obj.keys items.
Proof.
  induction indexes as [|i rest IH]; intros items H; simpl; [reflexivity|].
  assert (Hk : Obj.keys (mark_on_chain keys items i) = Obj.keys items).
  { destruct (keys_in_get _ _ _ (H i (or_introl eq_refl))) as [r Hr].
    unfold mark_on_chain. eapply keys_set_present. exact Hr. }
  rewrite IH; [exact Hk|].
  intros j Hj. rewrite Hk. apply H. right. exact Hj.
Qed.













Lemma keys_set_subset {A} k k0 (v : A) o :
  In k (Obj.keys (Obj.set k0 v o)) -> k = k0 \/ In k (Obj.keys o).
Proof.
  intros H. destruct (string_dec k k0) as [->|Hne]; [left; reflexivity|].
  right. apply get_in_keys. apply get_in_keys in H.
  rewrite get_set_other in H by exact Hne. exact H.
Qed.

Lemma config_lines_some keys items indexes : forall lines,
  config_lines keys items indexes = Some lines ->
  forall i, In i indexes -> In (key_at keys i) (Obj.keys items).
Proof.
  induction indexes as [|j rest IH]; intros lines H i Hi; simpl in *; [contradiction|].
  destruct (Obj.get (key_at keys j) items) as [r|] eqn:Hr; [|discriminate].
  destruct (config_lines keys items rest) as [ls|]; [|discriminate].
  destruct Hi as [<-|Hi].
  - eapply get_some_in_keys. exact Hr.
  - eapply IH; eauto.
Qed.

(** Every key of the cache after a run was there before or is the key of
    one of the images of the run. *)
Lemma keys_after_upload E files file k :
  In k (Obj.keys (mem_items (snd (fst (upload E files file))))) ->
  In k (existingInCache_of file) \/
  exists image, In image (images files (existingInCache_of file)) /\
                k = index_of image.
Proof.
  set (imgs := images files (existingInCache_of file)).
  set (I := fun m : Mem => forall k, In k (Obj.keys (mem_items m)) ->
              In k (existingInCache_of file) \/
              exists image, In image imgs /\ k = index_of image).
  assert (H : I (snd (fst (upload E files file)))).
  { apply (upload_keeps I (fun _ => True) E) with
      (env := switch_env (url E)) (imgs := imgs);
      try reflexivity; try (intros; exact Logic.I).
    - intros m u c Hm. exact Hm.
    - intros m image l nm Himg Hm _ _ k0 Hk0. simpl in Hk0.
      apply keys_set_subset in Hk0. destruct Hk0 as [->|Hk0]; [|auto].
      right. exists image. split; [exact Himg | reflexivity].
    - intros m ind keys indexes lines txid Hm Hl _ k0 Hk0. simpl in Hk0.
      rewrite fold_mark_keys in Hk0; [auto|].
      eapply config_lines_some. exact Hl.
    - intros k0 Hk0. left. unfold existingInCache_of.
      unfold cacheContent_of in Hk0. simpl in Hk0.
      destruct file as [[p [its|]]|]; simpl in *; tauto. }
  exact (H k).
Qed.



(** ** Twice is once *)




Lemma existingInCache_of_keys file :
  existingInCache_of file = Obj.keys (mem_items (cacheContent_of file)).
Proof. destruct file as [[p [its|]]|]; reflexivity. Qed.






(** ** On chain implies linked? *)

Section Links.

Variable strict : Prop.







End Links.

Section VerifyLinks.

Variable strict : Prop.
Variable decoder : list Byte.byte -> string.
Variable regexp : string -> string -> outcome bool.

Lemma lift_keeps {A} I P (r : outcome A) : triple I (lift r) (fun _ => I) I P.
Proof. destruct r; [apply triple_ret | apply triple_throw]; auto. Qed.

Lemma mismatch_keeps I P name_ uri_ cacheItem :
  triple I (mismatch regexp name_ uri_ cacheItem) (fun _ => I) I P.
Proof.
  unfold mismatch. apply triple_bind with (Mid := fun _ => I); [apply lift_keeps|].
  intros name_found. destruct (negb name_found); [apply triple_ret; auto|].
  apply triple_bind with (Mid := fun _ => I); [apply lift_keeps|].
  intros uri_found. apply triple_ret. auto.
Qed.



End VerifyLinks.




(** * Further properties *)

(** ** Chunks and micro-batches in general *)

Lemma ceil_div_covers n size : (0 < size)%nat -> (n <= ceil_div n size * size)%nat.
Proof.
  intros Hs. unfold ceil_div.
  pose proof (Nat.div_mod_eq (n + size - 1) size) as Hdm.
  pose proof (Nat.mod_upper_bound (n + size - 1) size ltac:(lia)) as Hr.
  nia.
Qed.

Lemma ceil_div_tight n size q :
  (0 < size)%nat -> (q < ceil_div n size)%nat -> (q * size < n)%nat.
Proof.
  intros Hs Hq. unfold ceil_div in Hq.
  pose proof (Nat.div_mod_eq (n + size - 1) size) as Hdm.
  pose proof (Nat.mod_upper_bound (n + size - 1) size ltac:(lia)) as Hr.
  nia.
Qed.

Lemma concat_windows {A} (l : list A) size k : forall s,
  List.concat (map (fun i => firstn size (skipn (i * size) l)) (seq s k))
    ++ skipn ((s + k) * size) l = skipn (s * size) l.
Proof.
  induction k as [|k IH]; intros s; simpl.
  - rewrite Nat.add_0_r. reflexivity.
  - rewrite <- app_assoc.
    replace ((s + S k) * size)%nat with ((S s + k) * size)%nat by lia.
    rewrite IH. replace (S s * size)%nat with (size + s * size)%nat by lia.
    rewrite <- skipn_skipn. apply firstn_skipn.
Qed.

Lemma chunks_windows {A} (l : list A) size :
  chunks l size =
  map (fun i => firstn size (skipn (i * size) l)) (seq 0 (ceil_div (List.length l) size)).
Proof.
  unfold chunks, slice. apply map_ext. intros i. f_equal. lia.
Qed.

Lemma chunks_concat {A} (l : list A) size :
  (0 < size)%nat -> List.concat (chunks l size) = l.
Proof.
  intros Hs. rewrite chunks_windows.
  pose proof (concat_windows l size (ceil_div (List.length l) size) 0) as H.
  simpl in H. rewrite skipn_all2 in H by (apply ceil_div_covers; exact Hs).
  rewrite app_nil_r in H. exact H.
Qed.

Lemma chunk_length {A} (l : list A) size c :
  (0 < size)%nat -> In c (chunks l size) ->
  (0 < List.length c <= size)%nat.
Proof.
  intros Hs Hc. rewrite chunks_windows in Hc. apply in_map_iff in Hc.
  destruct Hc as [i [<- Hi]]. apply in_seq in Hi.
  rewrite length_firstn, length_skipn.
  pose proof (ceil_div_tight (List.length l) size i Hs ltac:(lia)). lia.
Qed.

Lemma concat_offsets {A} (l : list A) fuel : forall off,
  (List.length l <= off + fuel)%nat ->
  List.concat (map (fun o => slice o (o + 10) l) (offsets fuel off (List.length l)))
  = skipn off l.
Proof.
  induction fuel as [|fuel IH]; intros off Hf; simpl.
  - symmetry. apply skipn_all2. lia.
  - destruct (off <? List.length l)%nat eqn:Hlt.
    + simpl. rewrite IH by lia. unfold slice.
      replace (off + 10 - off)%nat with 10%nat by lia.
      replace (off + 10)%nat with (10 + off)%nat by lia.
      rewrite <- skipn_skipn. apply firstn_skipn.
    + apply Nat.ltb_ge in Hlt. symmetry. apply skipn_all2. exact Hlt.
Qed.

Lemma micro_batches_concat (group : list nat) :
  List.concat (micro_batches group) = group.
Proof.
  unfold micro_batches. rewrite concat_offsets by lia. reflexivity.
Qed.

Lemma micro_batch_length (group indexes : list nat) :
  In indexes (micro_batches group) -> (0 < List.length indexes <= 10)%nat.
Proof.
  unfold micro_batches. intros H. apply in_map_iff in H.
  destruct H as [o [<- Ho]]. apply offsets_bounds in Ho.
  unfold slice. rewrite length_firstn, length_skipn. lia.
Qed.

Lemma concat_concat_map {A} (f : list A -> list (list A)) ls :
  (forall l, List.concat (f l) = l) ->
  List.concat (List.concat (map f ls)) = List.concat ls.
Proof.
  intros Hf. induction ls as [|l ls IH]; simpl; [reflexivity|].
  rewrite concat_app, Hf, IH. reflexivity.
Qed.

(** X1: for a positive size, [chunks] cuts the array into consecutive
    pieces: put end to end they give the array back, there are
    [ceil(length / size)] of them, none is empty and none is longer than
    [size]. *)
Theorem chunks_cut_the_array {A} (array : list A) size :
  (0 < size)%nat ->
  List.concat (chunks array size) = array /\
  List.length (chunks array size) = ceil_div (List.length array) size /\
  (forall c, In c (chunks array size) -> (0 < List.length c <= size)%nat) /\
  (array = [] -> chunks array size = []).
Proof.
  intros Hs. split; [apply chunks_concat; exact Hs|].
  split; [unfold chunks; rewrite length_map, length_seq; reflexivity|].
  split; [intros c; apply chunk_length; exact Hs|].
  intros ->. unfold chunks, ceil_div. simpl.
  rewrite Nat.div_small by lia. reflexivity.
Qed.

Lemma chunks_cut_the_array_witness :
  List.concat (chunks [1; 2; 3; 4; 5] 2) = [1; 2; 3; 4; 5] /\
  List.length (chunks [1; 2; 3; 4; 5] 2) = 3%nat.
Proof.
  destruct (chunks_cut_the_array [1; 2; 3; 4; 5] 2 ltac:(lia)) as [H1 [H2 _]].
  split; [exact H1 | exact H2].
Defined.

(** X2: the loop over the offsets of a macro-group forms micro-batches that,
    put end to end, give the macro-group back; each holds at least one and
    at most ten positions. *)
Theorem micro_batches_cut_the_group (allIndexesInSlice : list nat) :
  List.concat (micro_batches allIndexesInSlice) = allIndexesInSlice /\
  (forall indexes, In indexes (micro_batches allIndexesInSlice) ->
     (0 < List.length indexes <= 10)%nat) /\
  List.length (micro_batches allIndexesInSlice)
    = ceil_div (List.length allIndexesInSlice) 10.
Proof.
  split; [apply micro_batches_concat|].
  split; [intros indexes; apply micro_batch_length|].
  unfold micro_batches. rewrite length_map.
  generalize (List.length allIndexesInSlice). intros n.
  assert (H : forall fuel off, (n <= off + fuel)%nat ->
            List.length (offsets fuel off n) = ceil_div (n - off) 10).
  { induction fuel as [|fuel IH]; intros off Hf; cbn [offsets].
    - replace (n - off)%nat with 0%nat by lia. reflexivity.
    - destruct (off <? n)%nat eqn:Hlt.
      + apply Nat.ltb_lt in Hlt. cbn [List.length]. rewrite IH by lia.
        unfold ceil_div.
        pose proof (Nat.div_mod_eq (n - (off + 10) + 10 - 1) 10).
        pose proof (Nat.mod_upper_bound (n - (off + 10) + 10 - 1) 10 ltac:(lia)).
        pose proof (Nat.div_mod_eq (n - off + 10 - 1) 10).
        pose proof (Nat.mod_upper_bound (n - off + 10 - 1) 10 ltac:(lia)).
        lia.
      + apply Nat.ltb_ge in Hlt. replace (n - off)%nat with 0%nat by lia.
        reflexivity. }
  rewrite H by lia. rewrite Nat.sub_0_r. reflexivity.
Qed.

(** X3: whatever the number of cached items, the micro-batches of the
    macro-groups of the registration phase list every position below
    [keys.length] once, in ascending order: no item is left out of the phase
    and none is considered twice. *)
Theorem registration_considers_every_item (items : Obj.t CacheRecord) :
  let keys := Obj.keys items in
  let batches := List.concat (map micro_batches (chunks (seq 0 (List.length keys)) 1000)) in
  List.concat batches = seq 0 (List.length keys) /\
  map (key_at keys) (List.concat batches) = keys.
Proof.
  intros keys batches. subst batches.
  assert (H : List.concat (List.concat
                (map micro_batches (chunks (seq 0 (List.length keys)) 1000)))
              = seq 0 (List.length keys)).
  { rewrite (concat_concat_map micro_batches) by apply micro_batches_concat.
    apply chunks_concat. lia. }
  split; [exact H|]. rewrite H. unfold key_at.
  apply nth_ext with (d := "") (d' := "").
  - rewrite length_map, length_seq. reflexivity.
  - intros i Hi. rewrite length_map, length_seq in Hi.
    rewrite (nth_indep _ _ (nth 0 keys "")) by (rewrite length_map, length_seq; exact Hi).
    rewrite (map_nth (fun i => nth i keys "")), seq_nth by exact Hi. reflexivity.
Qed.

(** ** The config account and the records read from it *)

Lemma length_slice {A} a b (l : list A) :
  List.length (slice a b l) = Nat.min (b - a) (List.length l - a).
Proof. unfold slice. rewrite length_firstn, length_skipn. reflexivity. Qed.

(** X4: an account of the size [createConfig] allocates for [n] lines holds
    the whole record of every line below [n]: the slice the verifier takes
    for it has [configLineSize] bytes, its name buffer 32 and its uri buffer
    200, and it ends before the last [4 + ceil(n / 8)] bytes of the account.
    Whatever the account, the slice is cut short at the end of the data. *)
Theorem config_account_holds_every_line (data : list Byte.byte) n i :
  List.length data = config_size n -> (i < n)%nat ->
  List.length (thisSlice data i) = configLineSize /\
  List.length (slice 4 36 (thisSlice data i)) = 32%nat /\
  List.length (slice 40 240 (thisSlice data i)) = 200%nat /\
  (configArrayStart + 4 + configLineSize * (i + 1) + 4 + ceil_div n 8
   <= List.length data)%nat /\
  (forall data' j,
     List.length (thisSlice data' j) =
     Nat.min configLineSize
             (List.length data' - (configArrayStart + 4 + configLineSize * j))).
Proof.
  intros Hlen Hi.
  assert (Hgen : forall data' j,
            List.length (thisSlice data' j) =
            Nat.min configLineSize
                    (List.length data' - (configArrayStart + 4 + configLineSize * j))).
  { intros data' j. unfold thisSlice. rewrite length_slice. f_equal.
    unfold configLineSize. lia. }
  assert (Hend : (configArrayStart + 4 + configLineSize * (i + 1) + 4 + ceil_div n 8
                  <= List.length data)%nat).
  { rewrite Hlen. unfold config_size, configLineSize. nia. }
  assert (Hfull : List.length (thisSlice data i) = configLineSize).
  { rewrite Hgen. unfold configLineSize in *. lia. }
  repeat split; auto.
  - rewrite length_slice, Hfull. reflexivity.
  - rewrite length_slice, Hfull. reflexivity.
Qed.

Lemma config_account_holds_every_line_witness :
  let data := faithful_account ++ repeat Byte.x00 5 in
  List.length data = config_size 4 /\
  List.length (thisSlice data 3) = configLineSize /\
  List.length (slice 4 36 (thisSlice data 3)) = 32%nat /\
  List.length (slice 40 240 (thisSlice data 3)) = 200%nat.
Proof.
  intros data.
  assert (Hlen : List.length data = config_size 4) by (vm_compute; reflexivity).
  destruct (config_account_holds_every_line data 4 3 Hlen ltac:(lia))
    as [H1 [H2 [H3 _]]].
  repeat split; assumption.
Defined.

(** ** The verify action as a whole *)

Section VerifyRule.

Variable decoder : list Byte.byte -> string.
Variable regexp : string -> string -> outcome bool.
Variable I : Mem -> Prop.

Hypothesis I_clear : forall m key c,
  I m -> Obj.get key (mem_items m) = Some c ->
  I (mkMem (mem_program m)
           (Obj.set key (mkRecord (link c) (name c) false) (mem_items m))).

(** A turn of the verify loop keeps an invariant that clearing a flag
    keeps, and only logs. *)
Lemma verify_item_rule data keys i :
  keeps I is_log (verify_item decoder regexp data keys i).
Proof.
  unfold verify_item.
  apply triple_bind with (Mid := fun _ => I); [apply triple_emit; exact Logic.I|].
  intros _u.
  apply triple_bind with (Mid := fun a m => a = m /\ I m); [apply triple_read|].
  intros a. destruct (Obj.get (key_at keys i) (mem_items a)) as [cacheItem|] eqn:Hget.
  2:{ apply triple_throw. intros m [_ Hm]. exact Hm. }
  apply triple_bind with (Mid := fun _ m => a = m /\ I m).
  { eapply triple_weaken;
      [apply (mismatch_keeps regexp (fun m => a = m /\ I m)) | auto | auto |].
    intros m [_ Hm]. exact Hm. }
  intros differs. destruct differs.
  - apply triple_bind with (Mid := fun _ m => a = m /\ I m);
      [apply triple_emit; exact Logic.I|].
    intros _v. intros m [-> Hm]. simpl. split; [|constructor].
    apply I_clear; assumption.
  - intros m [-> Hm]. simpl. split; [exact Hm|]. repeat constructor.
Qed.

Lemma verify_loop_rule data keys positions :
  keeps I is_log (for_each (verify_item decoder regexp data keys) positions).
Proof. apply keeps_for_each. intros x _u. apply verify_item_rule. Qed.

End VerifyRule.

(** The verify action is its loop between a log and, when the loop returns,
    one write. *)
Lemma verify_shape decoder regexp account cachedContent p data its :
  program cachedContent = Some p ->
  account (config p) = Some data ->
  items cachedContent = Some its ->
  verify decoder regexp account (Some cachedContent) =
  match for_each (verify_item decoder regexp data (Obj.keys its))
                 (seq 0 (List.length (Obj.keys its))) (mkMem p its) with
  | (Returned _, m, evs) =>
      (Returned tt, Log "Number" :: evs ++ [WriteCache (document m)])
  | (Thrown e, _, evs) => (Thrown e, Log "Number" :: evs)
  end.
Proof.
  intros Hp Ha Hi. unfold verify. rewrite Hp, Ha, Hi.
  cbv [bind emit read save].
  destruct (for_each _ _ (mkMem p its)) as [[[[]|e] m] evs]; simpl;
    rewrite ?app_nil_r; reflexivity.
Qed.

Lemma logs_write_nothing evs :
  Forall is_log evs -> writes evs = [] /\ network_events evs = [].
Proof.
  induction 1 as [|e evs He _u [IH1 IH2]]; [split; reflexivity|].
  destruct e; try contradiction. simpl. auto.
Qed.

Lemma writes_app evs1 evs2 : writes (evs1 ++ evs2) = writes evs1 ++ writes evs2.
Proof. unfold writes. apply flat_map_app. Qed.

Lemma only_cleared_refl its : only_cleared its its.
Proof.
  split; [reflexivity|]. intros k r Hr. exists r. repeat split; auto.
Qed.

Lemma only_cleared_step its its' key c :
  only_cleared its its' -> Obj.get key its' = Some c ->
  only_cleared its (Obj.set key (mkRecord (link c) (name c) false) its').
Proof.
  intros [Hk Hr] Hget. split.
  - erewrite keys_set_present by exact Hget. exact Hk.
  - intros k r Hkr. destruct (Hr k r Hkr) as [r' [Hr' [Hl [Hn Ho]]]].
    destruct (string_dec k key) as [->|Hne].
    + rewrite get_set_same. eexists. split; [reflexivity|].
      rewrite Hget in Hr'. injection Hr' as <-.
      repeat split; simpl; auto. discriminate.
    + rewrite get_set_other by exact Hne. exists r'. repeat split; auto.
Qed.

(** What a run of the verify action leaves, whichever way it ends. *)
Lemma verify_run decoder regexp account file :
  match verify decoder regexp account file with
  | (Thrown _, evs) => Forall is_log evs
  | (Returned _, evs) =>
      exists cachedContent its its' logs,
        file = Some cachedContent /\
        items cachedContent = Some its /\
        only_cleared its its' /\
        Forall is_log logs /\
        evs = logs ++ [WriteCache (mkDoc (program cachedContent) (Some its'))]
  end.
Proof.
  destruct file as [cachedContent|]; [|constructor].
  destruct (program cachedContent) as [p|] eqn:Hp;
    [|unfold verify; rewrite Hp; constructor].
  destruct (account (config p)) as [data|] eqn:Ha;
    [|unfold verify; rewrite Hp, Ha; constructor].
  destruct (items cachedContent) as [its|] eqn:Hi;
    [|unfold verify; rewrite Hp, Ha, Hi; repeat constructor].
  rewrite (verify_shape decoder regexp account cachedContent p data its Hp Ha Hi).
  pose proof (verify_loop_rule decoder regexp
                (fun m => mem_program m = p /\ only_cleared its (mem_items m))
                (fun m key c Hm Hg =>
                   conj (proj1 Hm) (only_cleared_step _ _ _ _ (proj2 Hm) Hg))
                data (Obj.keys its) (seq 0 (List.length (Obj.keys its)))
                (mkMem p its) (conj eq_refl (only_cleared_refl its))) as K.
  cbv beta in K.
  destruct (for_each _ _ (mkMem p its)) as [[[[]|e] m] evs];
    destruct K as [[Hprog Hclr] Hlogs].
  - exists cachedContent, its, (mem_items m), (Log "Number" :: evs).
    repeat split; try assumption; try apply Hclr.
    + constructor; [exact Logic.I | exact Hlogs].
    + unfold document. rewrite Hprog, Hp. reflexivity.
  - constructor; [exact Logic.I | exact Hlogs].
Qed.

(** X5: the verify action only ever clears [onChain].  When it returns, it
    has written the cache file once, and what it wrote is the document it
    read with the same program, the same keys in the same order and the same
    link and name under each key, where an item is on chain only if it was
    before; and it sent nothing to the cluster or the storage service. *)
Theorem verify_only_clears_flags decoder regexp account file evs :
  verify decoder regexp account file = (Returned tt, evs) ->
  exists cachedContent its its',
    file = Some cachedContent /\
    items cachedContent = Some its /\
    only_cleared its its' /\
    writes evs = [mkDoc (program cachedContent) (Some its')] /\
    file_after file evs = Some (mkDoc (program cachedContent) (Some its')) /\
    network_events evs = [].
Proof.
  intros Hrun. pose proof (verify_run decoder regexp account file) as H.
  rewrite Hrun in H.
  destruct H as [cachedContent [its [its' [logs [Hf [Hi [Hc [Hl ->]]]]]]]].
  destruct (logs_write_nothing logs Hl) as [Hw Hn].
  exists cachedContent, its, its'. repeat split; try assumption; try apply Hc.
  - rewrite writes_app, Hw. reflexivity.
  - unfold file_after. rewrite fold_left_app. reflexivity.
  - unfold network_events in *. rewrite filter_app, Hn. reflexivity.
Qed.

(** X6: the verify action writes the cache file only once its loop is over.
    When it throws (no cache file, no program, no account at the cached
    address, no items, a key whose record is missing, a stored name or link
    that is no regular expression) it has written nothing: the file is as
    it was, whichever flags the loop had cleared in memory. *)
Theorem verify_throw_writes_nothing decoder regexp account file e evs :
  verify decoder regexp account file = (Thrown e, evs) ->
  writes evs = [] /\ file_after file evs = file /\ network_events evs = [].
Proof.
  intros Hrun. pose proof (verify_run decoder regexp account file) as H.
  rewrite Hrun in H.
  destruct (logs_write_nothing evs H) as [Hw Hn].
  repeat split; try assumption.
  unfold file_after. clear Hrun Hw Hn. revert file.
  induction H as [|ev evs Hev _u IH]; intros file; [reflexivity|].
  destruct ev; try contradiction. simpl. apply IH.
Qed.

Lemma verify_only_clears_flags_witness :
  exists its',
    only_cleared registered_items its' /\
    file_after registered_cache
      (snd (verify decode_buffer no_regexp (fun _ => Some foreign_account)
                   registered_cache)) =
    Some (mkDoc (Some registered_program) (Some its')).
Proof.
  destruct (verify_only_clears_flags decode_buffer no_regexp
              (fun _ => Some foreign_account) registered_cache
              (snd (verify decode_buffer no_regexp (fun _ => Some foreign_account)
                           registered_cache)))
    as [cachedContent [its [its' [Hf [Hi [Hc [Hw [Ha Hn]]]]]]]].
  - vm_compute. reflexivity.
  - injection Hf as <-. simpl in Hi. injection Hi as <-.
    exists its'. split; [exact Hc | exact Ha].
Defined.

Lemma verify_throw_writes_nothing_witness :
  fst (verify decode_buffer no_regexp (fun _ => Some faithful_account)
              unparsable_cache) = Thrown "SyntaxError" /\
  file_after unparsable_cache
    (snd (verify decode_buffer no_regexp (fun _ => Some faithful_account)
                 unparsable_cache)) = unparsable_cache.
Proof.
  split; [vm_compute; reflexivity|].
  apply (verify_throw_writes_nothing decode_buffer no_regexp
           (fun _ => Some faithful_account) unparsable_cache "SyntaxError").
  vm_compute. reflexivity.
Defined.

(** ** What a run of the upload pays for, uploads and creates *)

Lemma charges_app a b : charges (a ++ b) = charges a ++ charges b.
Proof. apply flat_map_app. Qed.

Lemma upload_indices_app a b :
  upload_indices (a ++ b) = upload_indices a ++ upload_indices b.
Proof. apply flat_map_app. Qed.

Lemma creations_app a b : creations (a ++ b) = creations a ++ creations b.
Proof. apply flat_map_app. Qed.

Lemma submissions_app a b : submissions (a ++ b) = submissions a ++ submissions b.
Proof. apply flat_map_app. Qed.

(** The ways one turn of the image loop can go. *)
Lemma process_image_trace E env SIZE i image m :
  match process_image E env SIZE i image m with
  | (r, m', evs) =>
      submissions evs = [] /\
      (creations evs = [] \/
       i = 0%nat /\ JS.truthy (uuid (mem_program m)) = false /\ creations evs = [SIZE]) /\
      (JS.truthy (uuid (mem_program m)) = true -> mem_program m' = mem_program m) /\
      (charges evs = [] /\ upload_indices evs = [] /\ mem_items m' = mem_items m \/
       charges evs = [index_of image] /\ upload_indices evs = [] /\
         r = Thrown "sendTransactionWithRetryWithKeypair" /\
         sendPayment E i = None /\ mem_items m' = mem_items m \/
       charges evs = [index_of image] /\ upload_indices evs = [index_of image] /\
         r = Returned tt /\ sendPayment E i <> None)
  end.
Proof.
  unfold process_image, pay_and_upload, initialize_config.
  change (JS.replace extension "" (JS.basename image)) with (index_of image).
  cbv [bind try_catch emit read write_mem save ret throw].
  destruct (JS.truthy (item_link (index_of image) m)) eqn:Hl;
    destruct (JS.truthy (uuid (mem_program m))) eqn:Hu; simpl;
    try (repeat split; auto; fail);
    destruct (readImage E image); simpl; try (repeat split; auto; fail);
    destruct (readManifest E _ _) as [manifest|]; simpl;
      try (repeat split; auto; fail);
    rewrite ?Bool.andb_false_r, ?Bool.andb_true_r;
    try (destruct (i =? 0)%nat eqn:Hi; simpl;
         [apply Nat.eqb_eq in Hi; destruct (createConfig E manifest SIZE) as [[u c]|]; simpl|]);
    try (destruct (sendPayment E i) as [txid|] eqn:Hpay; simpl;
         [destruct (uploadFile E _) as [result|]; simpl|]);
    repeat split; auto; try discriminate;
    try (right; right; repeat split; auto; discriminate);
    try (right; left; repeat split; auto).
Qed.

(** The image loop, from position [s] on. *)
Lemma upload_loop_trace E env SIZE imgs : forall s m,
  match for_each (fun p => process_image E env SIZE (fst p) (snd p))
                 (combine (seq s (List.length imgs)) imgs) m with
  | (r, m', evs) =>
      submissions evs = [] /\
      (creations evs = [] \/
       s = 0%nat /\ JS.truthy (uuid (mem_program m)) = false /\ creations evs = [SIZE]) /\
      (JS.truthy (uuid (mem_program m)) = true -> mem_program m' = mem_program m) /\
      (charges evs = upload_indices evs \/
       exists k, charges evs = upload_indices evs ++ [k] /\
                 r = Thrown "sendTransactionWithRetryWithKeypair") /\
      ((forall i, sendPayment E i = None) ->
       upload_indices evs = [] /\ mem_items m' = mem_items m /\
       (charges evs = [] \/
        exists image, In image imgs /\ charges evs = [index_of image] /\
                      r = Thrown "sendTransactionWithRetryWithKeypair"))
  end.
Proof.
  induction imgs as [|image rest IH]; intros s m.
  - simpl. repeat split; auto.
  - cbn [List.length seq combine for_each fst snd]. cbv [bind].
    pose proof (process_image_trace E env SIZE s image m) as T. cbn [fst snd].
    destruct (process_image E env SIZE s image m) as [[[[]|e] m1] ev1].
    + specialize (IH (S s) m1).
      destruct (for_each _ (combine (seq (S s) (List.length rest)) rest) m1)
        as [[r2 m2] ev2].
      destruct T as [Ts [Tc [Tp Tn]]]. destruct IH as [Is [Ic [Ip [In_ Ir]]]].
      rewrite submissions_app, creations_app, charges_app, upload_indices_app.
      rewrite Ts, Is.
      assert (Hc2 : creations ev2 = []).
      { destruct Ic as [Hc|[Hs _]]; [exact Hc | discriminate Hs]. }
      rewrite Hc2, !app_nil_r.
      assert (Heq1 : charges ev1 = upload_indices ev1).
      { destruct Tn as [[-> [-> _]]|[[_ [_ [Hr _]]]|[-> [-> _]]]];
          [reflexivity | discriminate Hr | reflexivity]. }
      split; [reflexivity|]. split; [exact Tc|]. split; [|split].
      * intros Hu. rewrite <- (Tp Hu). apply Ip. rewrite (Tp Hu). exact Hu.
      * rewrite Heq1. destruct In_ as [->|[k [-> Hr]]]; [left; reflexivity|].
        right. exists k. rewrite app_assoc. split; [reflexivity | exact Hr].
      * intros Hpay. destruct (Ir Hpay) as [Hu2 [Hi2 Hc]].
        destruct Tn as [[Hc1 [Hu1 Hi1]]|[[_ [_ [Hr _]]]|[_ [_ [_ Hne]]]]];
          [| discriminate Hr | destruct (Hne (Hpay s))].
        rewrite Hc1, Hu1, Hu2, Hi2, Hi1. repeat split.
        destruct Hc as [Hc|[img [Hin [Hc Hr]]]]; [left; exact Hc|].
        right. exists img. repeat split; auto. right. exact Hin.
    + rewrite ?app_nil_r.
      destruct T as [Ts [Tc [Tp Tn]]].
      split; [exact Ts|]. split; [exact Tc|]. split; [exact Tp|]. split.
      * destruct Tn as [[-> [-> _]]|[[-> [-> [Hr _]]]|[_ [_ [Hr _]]]]];
          [left; reflexivity | | discriminate Hr].
        right. exists (index_of image). split; [reflexivity | exact Hr].
      * intros Hpay.
        destruct Tn as [[Hc1 [Hu1 Hi1]]|[[Hc1 [Hu1 [Hr [_ Hi1]]]]|[_ [_ [Hr _]]]]];
          [| | discriminate Hr].
        -- rewrite Hc1, Hu1, Hi1. repeat split. left. reflexivity.
        -- rewrite Hc1, Hu1, Hi1. repeat split. right. exists image.
           repeat split; auto. left. reflexivity.
Qed.

(** The registration phase neither pays, uploads nor creates a config, and
    leaves the program as it is. *)
Lemma register_all_trace E m :
  match register_all E m with
  | (_, m', evs) =>
      charges evs = [] /\ upload_indices evs = [] /\ creations evs = [] /\
      mem_program m' = mem_program m
  end.
Proof.
  pose proof (register_all_keeps (fun m' => mem_program m' = mem_program m)
                is_registration_event E) as K.
  assert (K' : keeps (fun m' => mem_program m' = mem_program m)
                     is_registration_event (register_all E)).
  { apply K; try (intros; exact Logic.I). intros; assumption. }
  specialize (K' m eq_refl).
  assert (F : forall evs, Forall is_registration_event evs ->
                charges evs = [] /\ upload_indices evs = [] /\ creations evs = []).
  { induction 1 as [|e evs He _u [H1 [H2 H3]]]; [repeat split|].
    destruct e; try contradiction; simpl; auto. }
  destruct (register_all E m) as [[[[]|e] m'] evs]; destruct K' as [Hp Hf];
    destruct (F evs Hf) as [H1 [H2 H3]]; auto.
Qed.

(** The whole run: the image loop, then the registration. *)
Lemma upload_trace E files file :
  let start := cacheContent_of file in
  let imgs := images files (existingInCache_of file) in
  match upload E files file with
  | (r, m', evs) =>
      (creations evs = [] \/
       JS.truthy (uuid (mem_program start)) = false /\
       creations evs = [List.length imgs]) /\
      (JS.truthy (uuid (mem_program start)) = true ->
       mem_program m' = mem_program start) /\
      (charges evs = upload_indices evs \/
       exists k, charges evs = upload_indices evs ++ [k] /\
                 r = Thrown "sendTransactionWithRetryWithKeypair" /\
                 submissions evs = []) /\
      ((forall i, sendPayment E i = None) ->
       upload_indices evs = [] /\
       (charges evs = [] \/
        exists image, In image imgs /\ charges evs = [index_of image] /\
                      r = Thrown "sendTransactionWithRetryWithKeypair" /\
                      submissions evs = [] /\
                      mem_items m' = mem_items start))
  end.
Proof.
  intros start imgs. unfold upload. fold start imgs. cbv [bind].
  destruct (connect E); cbv [ret throw].
  2:{ repeat split; auto. }
  unfold upload_loop.
  pose proof (upload_loop_trace E (switch_env (url E)) (List.length imgs) imgs 0 start) as L.
  destruct (for_each _ (combine (seq 0 (List.length imgs)) imgs) start)
    as [[[[]|e] m1] ev1]; destruct L as [Ls [Lc [Lp [Ln Lr]]]].
  - pose proof (register_all_trace E m1) as R. cbv [emit].
    destruct (register_all E m1) as [[[[]|e] m2] ev2];
      destruct R as [Rc [Ru [Rk Rp]]]; cbn [app];
      rewrite ?creations_app, ?charges_app, ?upload_indices_app;
      cbn [creations charges upload_indices flat_map app];
      rewrite ?Rc, ?Ru, ?Rk, ?app_nil_r.
    all: assert (Heq : charges ev1 = upload_indices ev1)
        by (destruct Ln as [H|[k [_ Hr]]]; [exact H | discriminate Hr]).
    all: split; [destruct Lc as [H|[_ [H1 H2]]]; auto|].
    all: split; [intros Hu; rewrite Rp; apply Lp; exact Hu|].
    all: split; [left; exact Heq|].
    all: intros Hpay; destruct (Lr Hpay) as [Hu [Hi [Hc|[img [_ [_ Hr]]]]]];
        [split; [exact Hu | left; exact Hc] | discriminate Hr].
  - rewrite ?app_nil_r.
    split; [destruct Lc as [H|[_ [H1 H2]]]; auto|].
    split; [exact Lp|]. split.
    + destruct Ln as [H|[k [H Hr]]]; [left; exact H|].
      right. exists k. repeat split; assumption.
    + intros Hpay. destruct (Lr Hpay) as [Hu [Hi Hc]]. split; [exact Hu|].
      destruct Hc as [Hc|[img [Hin [Hc Hr]]]]; [left; exact Hc|].
      right. exists img. repeat split; assumption.
Qed.



(** X9: when payments are refused, a run uploads nothing and attempts at
    most one payment.  If it attempts one, for an image of the run, it ends
    there with the payment's exception: no item of the cache is added or
    changed and no batch write is made, not even for the items that already
    had a link. *)
Theorem refused_payment_ends_the_run E files file :
  (forall i, sendPayment E i = None) ->
  let run := upload E files file in
  upload_indices (snd run) = [] /\
  (charges (snd run) = [] \/
   exists image,
     In image (images files (existingInCache_of file)) /\
     charges (snd run) = [index_of image] /\
     fst (fst run) = Thrown "sendTransactionWithRetryWithKeypair" /\
     submissions (snd run) = [] /\
     mem_items (snd (fst run)) = mem_items (cacheContent_of file)).
Proof.
  intros Hpay run. pose proof (upload_trace E files file) as T. cbv zeta in T.
  fold run in T. destruct run as [[r m'] evs]. cbn [fst snd].
  destruct T as [_ [_ [_ T]]]. exact (T Hpay).
Qed.

Lemma refused_payment_ends_the_run_witness :
  let run := upload env_payment_refused sample_files None in
  upload_indices (snd run) = [] /\
  charges (snd run) = ["0"] /\
  fst (fst run) = Thrown "sendTransactionWithRetryWithKeypair" /\
  mem_items (snd (fst run)) = [].
Proof.
  destruct (refused_payment_ends_the_run env_payment_refused sample_files None
              (fun _ => eq_refl)) as [Hu [Hc|[image [Hin [Hc [Hr [Hs Hi]]]]]]].
  - vm_compute in Hc. discriminate Hc.
  - cbv zeta. split; [exact Hu|]. split; [vm_compute; reflexivity|].
    split; [exact Hr | exact Hi].
Defined.

(** ** What a run of the upload leaves of the cache it read *)

(** X10: an item the cache holds with a link is kept by a run of the upload:
    it is still there afterwards, with the same link and the same name, and
    if it was on chain it still is.  (An item without a link is stored anew
    when its upload succeeds, with [onChain: false].) *)
Theorem linked_record_is_kept E files file k r :
  Obj.get k (mem_items (cacheContent_of file)) = Some r ->
  JS.truthy (link r) = true ->
  exists r',
    Obj.get k (mem_items (snd (fst (upload E files file)))) = Some r' /\
    link r' = link r /\ name r' = name r /\
    (onChain r = true -> onChain r' = true).
Proof.
  intros Hget Ht.
  set (I := fun m : Mem => exists r',
              Obj.get k (mem_items m) = Some r' /\
              link r' = link r /\ name r' = name r /\
              (onChain r = true -> onChain r' = true)).
  assert (H : I (snd (fst (upload E files file)))).
  { apply (upload_keeps I (fun _ => True) E) with
      (env := switch_env (url E)) (imgs := images files (existingInCache_of file));
      try reflexivity; try (intros; exact Logic.I).
    - intros m u c Hm. exact Hm.
    - intros m image l nm _u [r' [Hr' [Hl [Hn Ho]]]] Hf _v.
      exists r'. split; [|auto]. cbn [mem_items].
      rewrite get_set_other; [exact Hr'|].
      intros ->. unfold item_link in Hf. rewrite Hr', Hl, Ht in Hf. discriminate Hf.
    - intros m ind keys indexes lines txid [r' [Hr' [Hl [Hn Ho]]]] _u _v.
      unfold I. cbn [mem_items]. rewrite fold_mark_get, Hr'.
      destruct (existsb _ indexes); [|exists r'; auto].
      eexists. split; [reflexivity|]. simpl. auto.
    - exists r. auto. }
  exact H.
Qed.

Lemma linked_record_is_kept_witness :
  exists r',
    Obj.get "3" (mem_items (snd (fst (upload env_first_batch_rejected sample_files
                                             registered_cache)))) = Some r' /\
    link r' = Some "https://arweave.net/tx3" /\ name r' = Some "Item #3" /\
    onChain r' = true.
Proof.
  destruct (linked_record_is_kept env_first_batch_rejected sample_files
              registered_cache "3"
              (mkRecord (Some "https://arweave.net/tx3") (Some "Item #3") true)
              eq_refl eq_refl) as [r' [Hr' [Hl [Hn Ho]]]].
  exists r'. repeat split; [exact Hr' | exact Hl | exact Hn | exact (Ho eq_refl)].
Defined.

(** X11: a key a run adds to the cache is the name of one of the run's
    images without its directory and its first [.png]: it is not empty and
    holds no slash.  The image is a [.png] file of the listing, or a key the
    cache already held with [.png] appended. *)
Theorem added_key_is_an_image_stem E files file k :
  In k (Obj.keys (mem_items (snd (fst (upload E files file))))) ->
  ~ In k (existingInCache_of file) ->
  k <> "" /\ JS.includes "/" k = false /\
  exists image,
    JS.extname image = ".png" /\ k = index_of image /\
    (In image files \/
     exists cached, In cached (existingInCache_of file) /\
                    image = (cached ++ ".png")%string).
Proof.
  intros Hk Hnew.
  destruct (keys_after_upload E files file k Hk) as [Hc|[image [Himg ->]]];
    [contradiction|].
  apply in_images in Himg. destruct Himg as [Hext Hin].
  apply String.eqb_eq in Hext. change extension with ".png" in Hext.
  split; [apply index_of_image_nonempty; exact Hext|].
  split; [apply index_of_no_slash|].
  exists image. split; [exact Hext|]. split; [reflexivity|].
  destruct Hin as [Hin|[cached [-> [Hin _]]]].
  - left. rewrite listed_keep_first in Hin.
    exact (subseq_In _ _ _ (keep_first_subseq seen_key files []) Hin).
  - right. exists cached. split; [exact Hin | reflexivity].
Qed.

Lemma added_key_is_an_image_stem_witness :
  "1" <> "" /\ JS.includes "/" "1" = false /\
  exists image,
    JS.extname image = ".png" /\ "1" = index_of image /\
    (In image sample_files \/
     exists cached, In cached (existingInCache_of None) /\
                    image = (cached ++ ".png")%string).
Proof.
  apply (added_key_is_an_image_stem calm_env sample_files None "1").
  - vm_compute. auto.
  - simpl. tauto.
Defined.

(** ** The cache file and the cache in memory *)

Lemma in_sync_app m0 m1 m2 ev1 ev2 :
  in_sync m0 m1 ev1 -> in_sync m1 m2 ev2 -> in_sync m0 m2 (ev1 ++ ev2).
Proof.
  unfold in_sync. rewrite writes_app.
  intros [[H1 ->]|[p1 H1]] [[H2 ->]|[p2 H2]]; rewrite H1, H2.
  - left. split; reflexivity.
  - right. exists p2. reflexivity.
  - right. exists p1. rewrite app_nil_r. reflexivity.
  - right. exists ((p1 ++ [document m1]) ++ p2). rewrite app_assoc. reflexivity.
Qed.

Lemma in_sync_nil m : in_sync m m [].
Proof. left. split; reflexivity. Qed.

Lemma synced_ret {A} (a : A) : synced (ret a).
Proof. intros m. apply in_sync_nil. Qed.

Lemma synced_throw {A} e : synced (@throw A e).
Proof. intros m. apply in_sync_nil. Qed.

Lemma synced_read : synced read.
Proof. intros m. apply in_sync_nil. Qed.

Lemma synced_emit e : writes [e] = [] -> synced (emit e).
Proof. intros H m. left. split; [exact H | reflexivity]. Qed.

Lemma synced_bind {A B} (c : M A) (k : A -> M B) :
  synced c -> (forall a, synced (k a)) -> synced (bind c k).
Proof.
  intros Hc Hk m. unfold bind. specialize (Hc m).
  destruct (c m) as [[[a|e] m1] ev1]; [|exact Hc].
  specialize (Hk a m1). destruct (k a m1) as [[r m2] ev2].
  eapply in_sync_app; eassumption.
Qed.

Lemma synced_try_catch {A} (c : M A) h :
  synced c -> (forall e, synced (h e)) -> synced (try_catch c h).
Proof.
  intros Hc Hh m. unfold try_catch. specialize (Hc m).
  destruct (c m) as [[[a|e] m1] ev1]; [exact Hc|].
  specialize (Hh e m1). destruct (h e m1) as [[r m2] ev2].
  eapply in_sync_app; eassumption.
Qed.

Lemma synced_try_finally {A} (c : M A) f :
  synced c -> synced f -> synced (try_finally c f).
Proof.
  intros Hc Hf m. unfold try_finally. specialize (Hc m).
  destruct (c m) as [[r m1] ev1].
  specialize (Hf m1). destruct (f m1) as [[[[]|e] m2] ev2];
    eapply in_sync_app; eassumption.
Qed.

Lemma synced_for_each {A} (body : A -> M unit) xs :
  (forall x, synced (body x)) -> synced (for_each body xs).
Proof.
  intros Hb. induction xs as [|x xs IH]; simpl.
  - apply synced_ret.
  - apply synced_bind; [apply Hb | intros _u; exact IH].
Qed.

Lemma synced_promise_all tasks :
  (forall t, In t tasks -> synced t) -> synced (promise_all tasks).
Proof.
  induction tasks as [|t rest IH]; intros Ht m; simpl.
  - apply in_sync_nil.
  - pose proof (Ht t (or_introl eq_refl) m) as H1.
    destruct (t m) as [[r1 m1] ev1].
    pose proof (IH (fun t' Hin => Ht t' (or_intror Hin)) m1) as H2.
    destruct (promise_all rest m1) as [[r2 m2] ev2].
    eapply in_sync_app; eassumption.
Qed.

(** The memory is written to the file at once. *)
Lemma synced_store (f : Mem -> Mem) :
  synced (m <- read ;; write_mem (f m) ;; save).
Proof. intros m. right. exists []. reflexivity. Qed.

Lemma synced_save : synced save.
Proof. intros m. right. exists []. reflexivity. Qed.

Lemma synced_process_image E env SIZE i image :
  synced (process_image E env SIZE i image).
Proof.
  unfold process_image.
  apply synced_bind; [apply synced_emit; reflexivity|]. intros _u.
  apply synced_bind; [apply synced_read|]. intros m.
  destruct (_ || _); [|apply synced_ret].
  apply synced_bind; [destruct (readImage E image);
                      [apply synced_ret | apply synced_throw]|].
  intros _v. destruct (readManifest E _ _) as [manifest|]; [|apply synced_throw].
  apply synced_bind.
  { destruct (_ && _); [|apply synced_ret]. unfold initialize_config.
    apply synced_try_catch; [|intros e; apply synced_emit; reflexivity].
    apply synced_bind; [apply synced_emit; reflexivity|]. intros _w.
    destruct (createConfig E manifest SIZE) as [[u c]|]; [|apply synced_throw].
    apply (synced_store (fun m => mkMem (mkProgram (Some u) (Some c)) (mem_items m))). }
  intros _w. destruct (negb _); [|apply synced_ret]. unfold pay_and_upload.
  apply synced_bind; [apply synced_emit; reflexivity|]. intros _x.
  destruct (sendPayment E i) as [txid|]; [|apply synced_throw].
  apply synced_bind; [apply synced_emit; reflexivity|]. intros _y.
  apply synced_try_catch; [|intros e; apply synced_emit; reflexivity].
  apply synced_bind; [apply synced_emit; reflexivity|]. intros _z.
  destruct (uploadFile E _) as [result|]; [|apply synced_throw].
  apply (synced_store (fun m => mkMem (mem_program m) (Obj.set _ _ (mem_items m)))).
Qed.

Lemma synced_register_micro_batch E keys indexes :
  synced (register_micro_batch E keys indexes).
Proof.
  unfold register_micro_batch.
  apply synced_bind; [apply synced_read|]. intros m.
  destruct (negb _); [|apply synced_ret].
  apply synced_bind; [apply synced_emit; reflexivity|]. intros _u.
  destruct (config_lines keys (mem_items m) indexes) as [lines|]; [|apply synced_throw].
  apply synced_bind; [apply synced_emit; reflexivity|]. intros _v.
  destruct (addConfigLines E _ lines); [|apply synced_throw].
  apply (synced_store (fun m => mkMem (mem_program m)
                                  (fold_left (mark_on_chain keys) indexes (mem_items m)))).
Qed.

Lemma synced_register_all E : synced (register_all E).
Proof.
  unfold register_all.
  apply synced_bind; [apply synced_read|]. intros m.
  apply synced_try_finally; [|apply synced_save].
  apply synced_try_catch; [|intros e; apply synced_emit; reflexivity].
  apply synced_promise_all. intros t Ht. apply in_map_iff in Ht.
  destruct Ht as [g [<- _u]]. unfold register_group.
  apply synced_for_each. intros x. apply synced_register_micro_batch.
Qed.

Lemma last_cons_default {A} (l : list A) : forall x a b,
  last (x :: l) a = last (x :: l) b.
Proof.
  induction l as [|y l IH]; intros x a b; [reflexivity|].
  change (last (y :: l) a = last (y :: l) b). apply IH.
Qed.

Lemma file_after_writes evs : forall file,
  file_after file evs = last (map Some (writes evs)) file.
Proof.
  unfold file_after.
  induction evs as [|e evs IH]; intros file; [reflexivity|].
  cbn [fold_left]. rewrite IH. destruct e; try reflexivity.
  cbn [writes flat_map app map]. fold (writes evs).
  destruct (writes evs) as [|d' ds]; [reflexivity|].
  cbn [map]. change (last (Some d' :: map Some ds) (Some doc) =
                     last (Some d' :: map Some ds) file).
  apply last_cons_default.
Qed.

(** The registration phase ends by writing the file. *)
Lemma register_all_writes E m :
  match register_all E m with
  | (_, m', evs) => exists earlier, evs = earlier ++ [WriteCache (document m')]
  end.
Proof.
  unfold register_all. cbv [bind read try_finally save emit].
  destruct (try_catch _ _ m) as [[r m1] ev1]. exists ev1. reflexivity.
Qed.

(** X12: however a run of the upload ends, by returning or by an exception
    at any point, the cache file holds what the run has recorded in memory:
    the last document written is the cache in memory at the end, or the run
    wrote nothing and its memory is the cache it started from.  A run that
    returns has written the file. *)
Theorem cache_file_tracks_memory E files file :
  match upload E files file with
  | (r, m', evs) =>
      (writes evs = [] /\ m' = cacheContent_of file /\ file_after file evs = file \/
       file_after file evs = Some (document m')) /\
      (r = Returned tt -> file_after file evs = Some (document m'))
  end.
Proof.
  assert (S : synced
    ((if connect E then ret tt else throw "setup") ;;
     upload_loop E (switch_env (url E)) (images files (existingInCache_of file)) ;;
     register_all E ;; emit (Log "Done"))).
  { apply synced_bind; [destruct (connect E); [apply synced_ret | apply synced_throw]|].
    intros _u. apply synced_bind.
    { unfold upload_loop. apply synced_for_each. intros x. apply synced_process_image. }
    intros _v. apply synced_bind; [apply synced_register_all|].
    intros _w. apply synced_emit. reflexivity. }
  assert (W : forall m' evs, in_sync (cacheContent_of file) m' evs ->
            writes evs = [] /\ m' = cacheContent_of file /\ file_after file evs = file \/
            file_after file evs = Some (document m')).
  { intros m' evs [[Hw ->]|[earlier Hw]]; rewrite file_after_writes, Hw.
    - left. repeat split.
    - right. rewrite map_app. cbn [map]. rewrite last_last. reflexivity. }
  pose proof (S (cacheContent_of file)) as H. unfold upload.
  destruct ((_ ;; _) (cacheContent_of file)) as [[r m'] evs] eqn:Hrun.
  split; [apply W; exact H|].
  intros ->. destruct (W _ _ H) as [[Hw _u]|Hf]; [exfalso | exact Hf].
  revert Hrun Hw. cbv [bind]. destruct (connect E); cbv [ret throw]; [|discriminate].
  destruct (upload_loop _ _ _ _) as [[[[]|e] m1] ev1]; [|discriminate].
  pose proof (register_all_writes E m1) as R.
  destruct (register_all E m1) as [[[[]|e] m2] ev2]; [|discriminate].
  cbv [emit]. intros Heq. injection Heq as <- <-. destruct R as [earlier ->].
  rewrite !writes_app. cbn [writes flat_map app]. intros Hw.
  apply app_eq_nil in Hw. destruct Hw as [_v Hw].
  apply app_eq_nil in Hw. destruct Hw as [Hw _w]. 
  apply app_eq_nil in Hw. destruct Hw as [_x Hw]. discriminate Hw.
Qed.

(** ** The registration phase as a whole *)

Lemma only_marked_refl its : only_marked its its.
Proof. split; [reflexivity|]. intros k r Hr. exists r. auto. Qed.

Lemma only_marked_step its its' keys indexes :
  only_marked its its' ->
  (forall i, In i indexes -> In (key_at keys i) (Obj.keys its')) ->
  only_marked its (fold_left (mark_on_chain keys) indexes its').
Proof.
  intros [Hk Hr] Hin. split.
  - rewrite fold_mark_keys by exact Hin. exact Hk.
  - intros k r Hkr. destruct (Hr k r Hkr) as [r' [Hr' [Hl [Hn Ho]]]].
    rewrite fold_mark_get, Hr'.
    destruct (existsb _ indexes); [|exists r'; auto].
    eexists. split; [reflexivity|]. simpl. auto.
Qed.

(** The registration phase keeps the program and only sets [onChain]. *)
Lemma register_all_marks E m :
  mem_program (snd (fst (register_all E m))) = mem_program m /\
  only_marked (mem_items m) (mem_items (snd (fst (register_all E m)))).
Proof.
  assert (K : keeps (fun m' => mem_program m' = mem_program m /\
                               only_marked (mem_items m) (mem_items m'))
                    (fun _ => True) (register_all E)).
  { apply register_all_keeps; try (intros; exact Logic.I).
    intros m0 ind keys indexes lines txid [Hp Hm] Hl _u. split; [exact Hp|].
    cbn [mem_items]. apply only_marked_step; [exact Hm|].
    eapply config_lines_some. exact Hl. }
  specialize (K m (conj eq_refl (only_marked_refl _))).
  destruct (register_all E m) as [[[[]|e] m'] evs]; apply K.
Qed.




(** ** Failures the upload action survives *)

(** One turn of the image loop changes the program only by a config it
    created and the items only by an upload that succeeded. *)
Lemma process_image_changes E env SIZE i image m :
  match process_image E env SIZE i image m with
  | (_, m', _) =>
      (mem_program m' = mem_program m \/
       exists manifest, createConfig E manifest SIZE <> None) /\
      (mem_items m' = mem_items m \/
       exists request, uploadFile E request <> None)
  end.
Proof.
  unfold process_image, pay_and_upload, initialize_config.
  cbv [bind try_catch emit read write_mem save ret throw].
  destruct (negb (JS.truthy (item_link _ m))) eqn:Hl;
    destruct (JS.truthy (uuid (mem_program m))) eqn:Hu; simpl;
    try (split; left; reflexivity);
    destruct (readImage E image); simpl; try (split; left; reflexivity);
    destruct (readManifest E _ _) as [manifest|]; simpl;
      try (split; left; reflexivity);
    rewrite ?Bool.andb_false_r, ?Bool.andb_true_r;
    try (destruct (i =? 0)%nat; simpl;
         [destruct (createConfig E manifest SIZE) as [[u c]|] eqn:Hcfg; simpl|]);
    try (destruct (sendPayment E i) as [txid|]; simpl;
         [match goal with
          | |- context [uploadFile E ?d] =>
              destruct (uploadFile E d) as [result|] eqn:Hup; simpl
          end|]);
    split;
    try (left; reflexivity);
    try (right; eexists; rewrite Hcfg; discriminate);
    try (right; eexists; rewrite Hup; discriminate).
Qed.

Lemma upload_loop_changes E env SIZE (xs : list (nat * string)) : forall m,
  match for_each (fun p => process_image E env SIZE (fst p) (snd p)) xs m with
  | (_, m', _) =>
      (mem_program m' = mem_program m \/
       exists manifest, createConfig E manifest SIZE <> None) /\
      (mem_items m' = mem_items m \/
       exists request, uploadFile E request <> None)
  end.
Proof.
  induction xs as [|[i image] xs IH]; intros m; [split; left; reflexivity|].
  cbn [for_each fst snd]. cbv [bind].
  pose proof (process_image_changes E env SIZE i image m) as T.
  destruct (process_image E env SIZE i image m) as [[[[]|e] m1] ev1]; [|exact T].
  specialize (IH m1). destruct (for_each _ xs m1) as [[r2 m2] ev2].
  destruct T as [Tp Ti]. destruct IH as [Ip Ii]. split.
  - destruct Tp as [Tp|Tp]; [|right; exact Tp].
    destruct Ip as [Ip|Ip]; [left; congruence | right; exact Ip].
  - destruct Ti as [Ti|Ti]; [|right; exact Ti].
    destruct Ii as [Ii|Ii]; [left; congruence | right; exact Ii].
Qed.

Lemma upload_changes E files file :
  let start := cacheContent_of file in
  let final := snd (fst (upload E files file)) in
  (mem_program final = mem_program start \/
   exists manifest size, createConfig E manifest size <> None) /\
  (only_marked (mem_items start) (mem_items final) \/
   exists request, uploadFile E request <> None).
Proof.
  intros start final. unfold final, upload. fold start. cbv [bind].
  destruct (connect E); cbv [ret throw]; cbn [fst snd].
  2:{ split; left; [reflexivity | apply only_marked_refl]. }
  unfold upload_loop.
  pose proof (upload_loop_changes E (switch_env (url E))
                (List.length (images files (existingInCache_of file)))
                (combine (seq 0 (List.length (images files (existingInCache_of file))))
                         (images files (existingInCache_of file))) start) as L.
  destruct (for_each _ _ start) as [[[[]|e] m1] ev1]; destruct L as [Lp Li];
    cbn [fst snd].
  - pose proof (register_all_marks E m1) as [Rp Rm].
    destruct (register_all E m1) as [[[[]|e] m2] ev2]; cbv [emit]; cbn [fst snd] in *.
    all: split;
      [destruct Lp as [Lp|[mf Lp]]; [left; congruence | right; eauto]
      |destruct Li as [Li|Li]; [left; rewrite <- Li; exact Rm | right; exact Li]].
  - split; [destruct Lp as [Lp|[mf Lp]]; [left; exact Lp | right; eauto]
           |destruct Li as [Li|Li]; [left; rewrite Li; apply only_marked_refl
                                    | right; exact Li]].
Qed.

(** X15: when the storage service answers no request, a run adds no item
    and sets no link, however it ends: the cache it leaves has the keys, in
    the same order, and the links and names it started with, and an item
    that was on chain still is. *)
Theorem failed_uploads_leave_the_items E files file :
  (forall request, uploadFile E request = None) ->
  only_marked (mem_items (cacheContent_of file))
              (mem_items (snd (fst (upload E files file)))).
Proof.
  intros Hdown. destruct (upload_changes E files file) as [_u [H|[request H]]].
  - exact H.
  - destruct (H (Hdown request)).
Qed.

Lemma failed_uploads_leave_the_items_witness :
  fst (fst (upload env_storage_down sample_files None)) = Returned tt /\
  charges (snd (upload env_storage_down sample_files None)) = ["0"; "1"] /\
  only_marked (mem_items (cacheContent_of None))
              (mem_items (snd (fst (upload env_storage_down sample_files None)))).
Proof.
  split; [vm_compute; reflexivity|]. split; [vm_compute; reflexivity|].
  apply (failed_uploads_leave_the_items env_storage_down sample_files None).
  intros request. reflexivity.
Defined.

(** X16: when no config account can be created, the program of the cache
    is at the end of a run what it was at the start, however the run ends:
    nothing but a created config ever changes it. *)
Theorem failed_config_leaves_the_program E files file :
  (forall manifest size, createConfig E manifest size = None) ->
  mem_program (snd (fst (upload E files file))) = mem_program (cacheContent_of file).
Proof.
  intros Hcfg. destruct (upload_changes E files file) as [[H|[mf [n H]]] _u].
  - exact H.
  - destruct (H (Hcfg mf n)).
Qed.

Lemma failed_config_leaves_the_program_witness :
  fst (fst (upload env_config_refused sample_files None)) = Returned tt /\
  upload_indices (snd (upload env_config_refused sample_files None)) = ["0"; "1"] /\
  mem_program (snd (fst (upload env_config_refused sample_files None))) =
    mem_program (cacheContent_of None).
Proof.
  split; [vm_compute; reflexivity|]. split; [vm_compute; reflexivity|].
  apply (failed_config_leaves_the_program env_config_refused sample_files None).
  intros manifest size. reflexivity.
Defined.
